(** * Dependent admin dropdowns: [filterPricingTiers] and [filterFields]

    A shallow embedding of the two admin scripts
    [static/admin/js/filter_pricing_tier.js] (function [filterPricingTiers])
    and its table-field twin (function [filterFields]).  Both scripts are
    jQuery event wiring around one routine that

    - inspects [window.location.pathname] to find the ProductVariant id
      (the context detector),
    - either asks an autocomplete endpoint for the options of every
      dependent [<select>] (the remote populator), or
    - builds the options from the inline formset rows of the page
      (the local populator).

    The document is modelled by the parts the scripts read and write: the
    [<select>] elements with their option lists, the named form controls,
    and the elements that carry an [id] together with the controls below
    them.  A control below an element may be one of the [<select>] elements
    of the document: it then refers to that select, and the value a script
    reads from it is the value the select has at that moment, so that a
    script that empties a select and then reads the rows sees the emptied
    select.  Asynchronous requests are kept in a list of pending requests,
    each with the variables its callbacks close over, so that an answer may
    arrive after the page has changed.

    The repository also holds a second, shorter copy of the pricing-tier
    script, without the branch for the Item add page; it is modelled in
    [Legacy] with the populators of [filterPricingTiers]. *)

From Stdlib Require Import String Ascii List ZArith Bool Arith Lia DecimalString.
From stdpp Require Import base list.
Import ListNotations.
Open Scope string_scope.
Open Scope list_scope.

(** ** JavaScript values *)

Module JS.

(** The values the scripts handle: [.val()] and [.attr()] give a string,
    [null] or [undefined]; an [id] of a JSON result is a string or a number
    (integers are enough for primary keys). *)
Inductive jsval : Type :=
| Undefined
| Null
| Str (s : string)
| Num (n : Z).

(** ToBoolean. *)
Definition truthy (v : jsval) : bool :=
  match v with
  | Undefined | Null => false
  | Str s => negb (s =? EmptyString)%string
  | Num n => negb (n =? 0)%Z
  end.

(** [a === b]: no conversion between types. *)
Definition strict_eq (a b : jsval) : bool :=
  match a, b with
  | Undefined, Undefined => true
  | Null, Null => true
  | Str s, Str t => (s =? t)%string
  | Num n, Num m => (n =? m)%Z
  | _, _ => false
  end.

(** ToString, as used by string concatenation, template literals and
    DOMString arguments. *)
Definition to_string (v : jsval) : string :=
  match v with
  | Undefined => "undefined"
  | Null => "null"
  | Str s => s
  | Num n => NilZero.string_of_int (Z.to_int n)
  end.

(** [a || b]. *)
Definition or_else (a b : jsval) : jsval := if truthy a then a else b.

(** [a && b]. *)
Definition and_then (a b : jsval) : jsval := if truthy a then b else a.

End JS.
Export JS.

(** ** String tests used by the selectors and by the context detector *)

Module Text.

(** [s.startsWith(p)], also the attribute selector [[id^="p"]]; the rest of
    the string is returned on success. *)
Fixpoint strip_prefix (p s : string) : option string :=
  match p with
  | EmptyString => Some s
  | String a p' =>
      match s with
      | EmptyString => None
      | String b s' => if Ascii.eqb a b then strip_prefix p' s' else None
      end
  end.

Definition starts_with (p s : string) : bool :=
  match strip_prefix p s with Some _ => true | None => false end.

(** [s.includes(sub)], also the attribute selector [[id*="sub"]]. *)
Fixpoint includes (s sub : string) : bool :=
  if starts_with sub s then true
  else match s with
       | EmptyString => false
       | String _ s' => includes s' sub
       end.

(** The attribute selector [[name$="suf"]]. *)
Fixpoint ends_with (suf s : string) : bool :=
  if (s =? suf)%string then true
  else match s with
       | EmptyString => false
       | String _ s' => ends_with suf s'
       end.

(** [\d] *)
Definition is_digit (c : ascii) : bool :=
  (48 <=? nat_of_ascii c)%nat && (nat_of_ascii c <=? 57)%nat.

(** The longest run of digits at the head of [s], and what follows it. *)
Fixpoint span_digits (s : string) : string * string :=
  match s with
  | EmptyString => (EmptyString, EmptyString)
  | String c s' =>
      if is_digit c
      then let (ds, rest) := span_digits s' in (String c ds, rest)
      else (EmptyString, s)
  end.

Fixpoint all_digits (s : string) : bool :=
  match s with
  | EmptyString => true
  | String c s' => is_digit c && all_digits s'
  end.

(** The head of a string is not a digit. *)
Definition no_leading_digit (s : string) : Prop :=
  match s with
  | EmptyString => True
  | String c _ => is_digit c = false
  end.

Definition productvariant_prefix : string := "/ecommerce/productvariant/".
Definition change_suffix : string := "/change/".

(** The regular expression [/\/ecommerce\/productvariant\/(\d+)\/change\//]
    tried at the head of [s]; the result is the capture group.  [\d+] is
    greedy, and as [/change/] does not start with a digit the longest run of
    digits is the only one that can be followed by it. *)
Definition match_here (s : string) : option string :=
  match strip_prefix productvariant_prefix s with
  | None => None
  | Some r =>
      let (ds, rest) := span_digits r in
      match ds with
      | EmptyString => None
      | String _ _ => if starts_with change_suffix rest then Some ds else None
      end
  end.

(** [s.match(/\/ecommerce\/productvariant\/(\d+)\/change\//)]: the leftmost
    position at which the expression matches; [None] is JavaScript's [null],
    [Some d] stands for the match array whose element 1 is [d]. *)
Fixpoint match_change (s : string) : option string :=
  match match_here s with
  | Some d => Some d
  | None =>
      match s with
      | EmptyString => None
      | String _ s' => match_change s'
      end
  end.

End Text.
Export Text.

(** ** The document *)

Module Dom.

(** An [<option>]: its [value] attribute, if it has one, and its text. *)
Record option_el : Type := {
  o_value : option string;
  o_text : string
}.

(** [option.value]: the attribute, or the text when there is none. *)
Definition option_value (o : option_el) : string :=
  match o_value o with
  | Some v => v
  | None => o_text o
  end.

(** [new Option(text, value, defaultSelected, selected)]: the element and
    its selectedness.  An [undefined] value leaves the attribute out. *)
Definition new_Option (text : string) (value : jsval)
  (defaultSelected selected : bool) : option_el * bool :=
  ({| o_value := match value with
                 | Undefined => None
                 | v => Some (to_string v)
                 end;
      o_text := text |}, selected).

(** A sibling that follows a select: whether it has class [help], and its
    markup. *)
Record node : Type := {
  is_help : bool;
  html : string
}.

(** The double-quote character. *)
Definition dquote : string := String (ascii_of_nat 34) EmptyString.

(** [<p class="help">msg</p>] *)
Definition help_p (msg : string) : node :=
  {| is_help := true;
     html := ("<p class=" ++ dquote ++ "help" ++ dquote ++ ">"
              ++ msg ++ "</p>")%string |}.

(** A single-choice drop-down [<select>].  At most one option is selected,
    so the selectedness of the options is kept as [selectedIndex], with
    [None] for [-1].  [following] lists the siblings after the element,
    nearest first. *)
Record select : Type := {
  s_id : string;
  s_name : string;
  disabled : bool;
  options : list option_el;
  selectedIndex : option nat;
  following : list node
}.

(** A named form control ([<input>], or any other field read through
    [.val()] and [:checked]), with its id and its name.  When the control
    is one of the [<select>] elements of the document, [c_select] is its
    position among them: the element is then the same one, and the value a
    script reads from it is the value of that select at that moment (see
    [current]); [c_value] and [c_checked] hold the state of the controls
    that are not selects. *)
Record control : Type := {
  c_id : string;
  c_name : string;
  c_value : string;
  c_checked : bool;
  c_select : option nat
}.

(** An element with an [id] attribute, and the controls among its
    descendants in document order. *)
Record element : Type := {
  e_id : string;
  e_controls : list control
}.

(** The document: its [<select>] elements in document order, the controls
    that are below none of the elements listed, and the elements with an
    [id].  A select that stands below one of these elements is in [selects]
    and, as a control that refers to it, among the controls of the
    element. *)
Record document : Type := {
  selects : list select;
  inputs : list control;
  elements : list element
}.

(** *** jQuery and DOM operations on a select *)

(** [$select.prop('disabled', b)] *)
Definition prop_disabled (b : bool) (s : select) : select :=
  {| s_id := s_id s; s_name := s_name s; disabled := b;
     options := options s; selectedIndex := selectedIndex s;
     following := following s |}.

(** [$select.val()]: the value of the selected option, [null] when
    [selectedIndex] is [-1]. *)
Definition val (s : select) : jsval :=
  match selectedIndex s with
  | None => Null
  | Some i =>
      match options s !! i with
      | Some o => Str (option_value o)
      | None => Null
      end
  end.

(** Index of the first option whose value is [v]. *)
Fixpoint index_of_value (v : string) (os : list option_el) : option nat :=
  match os with
  | [] => None
  | o :: os' =>
      if (option_value o =? v)%string then Some 0
      else option_map S (index_of_value v os')
  end.

(** [$select.val(v)]: the first option with that value becomes the selected
    one; when there is none jQuery sets [selectedIndex] to [-1]. *)
Definition set_val (v : string) (s : select) : select :=
  {| s_id := s_id s; s_name := s_name s; disabled := disabled s;
     options := options s; selectedIndex := index_of_value v (options s);
     following := following s |}.

(** [$select.find('option:not(:first)').remove()].  When an option is
    removed the browser restores the selectedness of a drop-down: the
    selected option was the first one and stays, or it has gone (or there
    was none) and the first option becomes the selected one.  With nothing
    to remove the element is not touched. *)
Definition remove_options_not_first (s : select) : select :=
  match options s with
  | [] | [_] => s
  | o :: _ :: _ =>
      {| s_id := s_id s; s_name := s_name s; disabled := disabled s;
         options := [o]; selectedIndex := Some 0;
         following := following s |}
  end.

(** [$select.append(option)] for an option made by [new_Option].  A selected
    option takes the selection; otherwise the selection stays, and a
    drop-down left without a selected option gets its first option
    selected. *)
Definition append (o : option_el * bool) (s : select) : select :=
  {| s_id := s_id s; s_name := s_name s; disabled := disabled s;
     options := options s ++ [fst o];
     selectedIndex :=
       if snd o then Some (length (options s))
       else match selectedIndex s with
            | Some i => Some i
            | None => Some 0
            end;
     following := following s |}.

(** [$select.find('option[value="' + v + '"]').length]: the options whose
    [value] attribute is [v] (values are primary keys or element ids, which
    need no escaping inside the quotes). *)
Definition count_option_value (v : string) (s : select) : nat :=
  length (List.filter
            (fun o => match o_value o with
                      | Some a => (a =? v)%string
                      | None => false
                      end) (options s)).

(** [$select.next('.help').remove()] *)
Definition remove_next_help (s : select) : select :=
  {| s_id := s_id s; s_name := s_name s; disabled := disabled s;
     options := options s; selectedIndex := selectedIndex s;
     following := match following s with
                  | n :: rest => if is_help n then rest else n :: rest
                  | [] => []
                  end |}.

(** [$select.after(n)] *)
Definition after (n : node) (s : select) : select :=
  {| s_id := s_id s; s_name := s_name s; disabled := disabled s;
     options := options s; selectedIndex := selectedIndex s;
     following := n :: following s |}.

(** *** Queries on controls *)

(** The string a script gets from [.val()] when it only tests the value
    for truth and prints it when it is true: [null] and [undefined] are
    then as good as the empty string. *)
Definition value_text (v : jsval) : string :=
  match v with
  | Str x => x
  | _ => EmptyString
  end.

(** A control as it is read in a document whose selects are [ss]: a
    control that is the select at position [k] has the value that select
    has now, and is not [:checked]. *)
Definition current (ss : list select) (c : control) : control :=
  match c_select c with
  | None => c
  | Some k =>
      match ss !! k with
      | Some s =>
          {| c_id := c_id c; c_name := c_name c;
             c_value := value_text (val s); c_checked := false;
             c_select := Some k |}
      | None => c
      end
  end.

(** An element as it is read in a document whose selects are [ss]. *)
Definition view (ss : list select) (e : element) : element :=
  {| e_id := e_id e; e_controls := map (current ss) (e_controls e) |}.

(** The controls that are not selects. *)
Definition is_plain (c : control) : bool :=
  match c_select c with
  | None => true
  | Some _ => false
  end.

(** [$(...).find('[name$="suf"]')] below an element. *)
Definition find_name_suffix (suf : string) (e : element) : list control :=
  List.filter (fun c => ends_with suf (c_name c)) (e_controls e).

(** [.val()] of a set of controls: the value of the first one, [undefined]
    for the empty set. *)
Definition controls_val (cs : list control) : jsval :=
  match cs with
  | [] => Undefined
  | c :: _ => Str (c_value c)
  end.

(** [.is(':checked')]: some control of the set is checked. *)
Definition is_checked (cs : list control) : bool :=
  existsb c_checked cs.

(** Every form control of the document that is not a select, for selectors
    that are not tied to an element (the selects are in [selects]). *)
Definition all_controls (d : document) : list control :=
  List.filter is_plain (inputs d ++ flat_map e_controls (elements d)).

End Dom.
Export Dom.

(** ** The scripts *)

Module Script.

(** An entry [{id, text}] of [data.results], also the entries the local
    populator pushes. *)
Record item : Type := {
  item_id : jsval;
  item_text : string
}.

(** A request sent by [$.ajax] and not answered yet, with the variables
    its [success] and [error] callbacks close over: [$select] (the position
    of the element among the selects of the document) and
    [selectedValue]. *)
Record request : Type := {
  r_type : string;
  r_url : string;
  r_data : list (string * jsval);
  r_select : nat;
  r_selectedValue : jsval
}.

Record world : Type := {
  pathname : string;
  doc : document;
  console : list string;
  pending : list request
}.

(** What differs between the two scripts. *)
Record unit_spec : Type := {
  select_key : string;
  autocomplete_url : string;
  error_text : string;
  row_prefix : string;
  row_item : element -> option item;
  empty_help : string;
  formset_name : string;
  field_suffixes : list string
}.

Definition set_doc (d : document) (w : world) : world :=
  {| pathname := pathname w; doc := d;
     console := console w; pending := pending w |}.

(** Apply a DOM operation to the select at position [i]. *)
Definition update_select (i : nat) (f : select -> select) (w : world) : world :=
  set_doc {| selects := alter f i (selects (doc w));
             inputs := inputs (doc w);
             elements := elements (doc w) |} w.

(** Positions of the elements of [l] that satisfy [P], counted from [n]. *)
Fixpoint indices_from {A : Type} (P : A -> bool) (n : nat) (l : list A)
  : list nat :=
  match l with
  | [] => []
  | x :: l' =>
      if P x then n :: indices_from P (S n) l' else indices_from P (S n) l'
  end.

(** [$('select[id*="key"]')] *)
Definition matched (u : unit_spec) (w : world) : list nat :=
  indices_from (fun s => includes (s_id s) (select_key u)) 0
               (selects (doc w)).

(** [.each(body)] over a jQuery collection of selects. *)
Definition each (ixs : list nat) (body : nat -> world -> world) (w : world)
  : world :=
  fold_left (fun w i => body i w) ixs w.

(** [$('#id_product_variant').val()]: ids are unique in a document; the
    element is looked up among the selects, then among the other
    controls. *)
Definition product_variant_val (d : document) : jsval :=
  match List.find (fun s => (s_id s =? "id_product_variant")%string)
                  (selects d) with
  | Some s => val s
  | None =>
      controls_val
        (List.filter (fun c => (c_id c =? "id_product_variant")%string)
                     (all_controls d))
  end.

(** [$('input[name="id"]')] *)
Definition hiddenIdInput (d : document) : list control :=
  List.filter (fun c => (c_name c =? "id")%string) (all_controls d).

Definition isItemAddPage (w : world) : bool :=
  includes (pathname w) "/ecommerce/item/add/".

Definition isProductVariantAddPage (w : world) : bool :=
  includes (pathname w) "/ecommerce/productvariant/add/".

Definition isProductVariantChangePage (w : world) : option string :=
  match_change (pathname w).

(** The context detector: the value of [productVariantId] after the chain
    of tests on the path. *)
Definition productVariantId (w : world) : jsval :=
  if isItemAddPage w then product_variant_val (doc w)
  else if isProductVariantAddPage w then
    if negb (length (hiddenIdInput (doc w)) =? 0)%nat
       && truthy (controls_val (hiddenIdInput (doc w)))
    then controls_val (hiddenIdInput (doc w))
    else Null
  else
    match isProductVariantChangePage w with
    | Some _ =>
        match match_change (pathname w) with
        | Some d => Str d
        | None => Null
        end
    | None => Null
    end.

Definition no_parent_help : string :=
  "Select a Product Variant to enable this field.".

(** Body of the loop of the Item add page without a ProductVariant. *)
Definition no_parent_select (s : select) : select :=
  after (help_p no_parent_help)
    (remove_next_help (set_val EmptyString (prop_disabled true s))).

(** [$.ajax(settings)]: the request is sent ([GET] unless [type] is given)
    and the callbacks run later. *)
Definition ajax (r : request) (w : world) : world :=
  {| pathname := pathname w; doc := doc w; console := console w;
     pending := pending w ++ [r] |}.

(** Body of the loop of the remote populator. *)
Definition remote_body (u : unit_spec) (pvid : jsval) (i : nat) (w : world)
  : world :=
  match selects (doc w) !! i with
  | None => w
  | Some select0 =>
      let selectedValue := val select0 in
      let w := update_select i (prop_disabled false) w in
      ajax {| r_type := "GET";
              r_url := autocomplete_url u;
              r_data := [("product_variant_id", pvid); ("q", Str EmptyString)];
              r_select := i;
              r_selectedValue := selectedValue |} w
  end.

(** The remote populator. *)
Definition remote (u : unit_spec) (pvid : jsval) (w : world) : world :=
  let w := each (matched u w) (fun i => update_select i remove_next_help) w in
  each (matched u w) (remote_body u pvid) w.

(** [$.each(items, ...)]: one option per entry, selected when its id is
    strictly equal to [selectedValue]. *)
Definition append_items (selectedValue : jsval) (items : list item)
  (s : select) : select :=
  fold_left
    (fun s it =>
       append (new_Option (item_text it) (item_id it) false
                          (strict_eq (item_id it) selectedValue)) s)
    items s.

(** The [success] callback on the select it closes over. *)
Definition success_select (selectedValue : jsval) (results : list item)
  (s : select) : select :=
  let s := remove_options_not_first s in
  let s := append_items selectedValue results s in
  if truthy selectedValue
     && (count_option_value (to_string selectedValue) s =? 0)%nat
  then set_val EmptyString s
  else s.

Definition success (r : request) (results : list item) (w : world) : world :=
  update_select (r_select r) (success_select (r_selectedValue r) results) w.

(** The [error] callback: [console.error(...)]. *)
Definition error (u : unit_spec) (w : world) : world :=
  {| pathname := pathname w; doc := doc w;
     console := console w ++ [error_text u]; pending := pending w |}.

(** [$('[id^="prefix"]')]: the formset rows. *)
Definition formset_rows (u : unit_spec) (d : document) : list element :=
  List.filter (fun e => starts_with (row_prefix u) (e_id e)) (elements d).

(** The rows as a script reads them in the document [d]: a sub-field that
    is a select of [d] is read from that select. *)
Definition rows_read (u : unit_spec) (d : document) : list element :=
  map (view (selects d)) (formset_rows u d).

(** One turn of the loop over the rows: a row marked for deletion is left
    out, and so is a row for which [row_item] pushes nothing. *)
Definition push_row (u : unit_spec) (acc : list item) (formsetRow : element)
  : list item :=
  if is_checked (find_name_suffix "-DELETE" formsetRow) then acc
  else match row_item u formsetRow with
       | Some it => acc ++ [it]
       | None => acc
       end.

(** The array [pricingTiers] (or [tableFields]) after the loop over the
    rows of the document [d]. *)
Definition collect_rows (u : unit_spec) (d : document) : list item :=
  fold_left (push_row u) (rows_read u d) [].

(** Body of the loop of the local populator.  The rows are read in the
    document as it is once the select of the turn has lost its options. *)
Definition local_body (u : unit_spec) (i : nat) (w : world) : world :=
  match selects (doc w) !! i with
  | None => w
  | Some select0 =>
      let selectedValue := val select0 in
      let w := update_select i (prop_disabled false) w in
      let w := update_select i remove_options_not_first w in
      let items := collect_rows u (doc w) in
      let w := update_select i (append_items selectedValue items) w in
      if (length items =? 0)%nat
      then update_select i
             (fun s => after (help_p (empty_help u)) (prop_disabled true s)) w
      else w
  end.

(** The local populator. *)
Definition local (u : unit_spec) (w : world) : world :=
  let w := each (matched u w) (fun i => update_select i remove_next_help) w in
  each (matched u w) (local_body u) w.

(** The routine of a script: [filterPricingTiers] or [filterFields]. *)
Definition filter_unit (u : unit_spec) (w : world) : world :=
  let pvid := productVariantId w in
  if isItemAddPage w && negb (truthy pvid) then
    each (matched u w) (fun i => update_select i no_parent_select) w
  else if truthy pvid then remote u pvid w
  else if isProductVariantAddPage w then local u w
  else w.

(** *** The pricing-tier script *)

(** What [filterPricingTiers] pushes for a row that is not deleted. *)
Definition pricing_tier_row_item (formsetRow : element) : option item :=
  let tierType := controls_val (find_name_suffix "-tier_type" formsetRow) in
  let rangeStart := controls_val (find_name_suffix "-range_start" formsetRow) in
  let rangeEnd := controls_val (find_name_suffix "-range_end" formsetRow) in
  let idInput := controls_val (find_name_suffix "-id" formsetRow) in
  let tempId := Str (e_id formsetRow) in
  if truthy (and_then (and_then tierType rangeStart) rangeEnd) then
    Some {| item_id := or_else idInput tempId;
            item_text := (to_string tierType ++ " (" ++ to_string rangeStart
                          ++ "-" ++ to_string rangeEnd ++ ")")%string |}
  else None.

Definition pricing_tier_unit : unit_spec :=
  {| select_key := "pricing_tier";
     autocomplete_url := "/admin/ecommerce/pricingtier/autocomplete/";
     error_text := "Error fetching PricingTiers";
     row_prefix := "pricing_tiers-";
     row_item := pricing_tier_row_item;
     empty_help :=
       "Add Pricing Tiers in the Pricing Tier section to enable this field.";
     formset_name := "pricing_tiers";
     field_suffixes := ["-tier_type"; "-range_start"; "-range_end"] |}.

Definition filterPricingTiers : world -> world := filter_unit pricing_tier_unit.

(** *** The table-field script *)

(** What [filterFields] pushes for a row that is not deleted. *)
Definition table_field_row_item (formsetRow : element) : option item :=
  let name := controls_val (find_name_suffix "-name" formsetRow) in
  let fieldType := controls_val (find_name_suffix "-field_type" formsetRow) in
  let idInput := controls_val (find_name_suffix "-id" formsetRow) in
  let tempId := Str (e_id formsetRow) in
  if truthy (and_then name fieldType) then
    Some {| item_id := or_else idInput tempId;
            item_text := (to_string name ++ " (" ++ to_string fieldType
                          ++ ")")%string |}
  else None.

Definition table_field_unit : unit_spec :=
  {| select_key := "field";
     autocomplete_url := "/admin/ecommerce/tablefield/autocomplete/";
     error_text := "Error fetching TableFields";
     row_prefix := "table_fields-";
     row_item := table_field_row_item;
     empty_help :=
       "Add Table Fields in the Table Field section to enable this field.";
     formset_name := "table_fields";
     field_suffixes := ["-name"; "-field_type"] |}.

Definition filterFields : world -> world := filter_unit table_field_unit.

(** *** Answers of the server *)

Inductive response : Type :=
| Success (results : list item)
| Failure.

(** The answer to the pending request at position [k] arrives: the request
    leaves the pending list and its callback runs. *)
Definition respond (u : unit_spec) (k : nat) (resp : response) (w : world)
  : world :=
  match pending w !! k with
  | None => w
  | Some r =>
      let w := {| pathname := pathname w; doc := doc w; console := console w;
                  pending := delete k (pending w) |} in
      match resp with
      | Success results => success r results w
      | Failure => error u w
      end
  end.

(** *** The event binder *)

(** The elements that can be the target of a [change] event, by [id] and
    [name], in a fixed order: the selects, then the other controls. *)
Record target : Type := {
  t_id : string;
  t_name : string
}.

Definition targets (d : document) : list target :=
  map (fun s => {| t_id := s_id s; t_name := s_name s |}) (selects d)
  ++ map (fun c => {| t_id := c_id c; t_name := c_name c |}) (all_controls d).

(** A page after [$(document).ready]: the state, and the positions (in
    [targets]) of the elements on which [.on('change', ...)] put a
    listener, one entry per listener. *)
Record page : Type := {
  state : world;
  listeners : list nat
}.

(** The events the scripts listen to: a [change] of the element at position
    [k] of [targets], and the notifications [formset:added] and
    [formset:removed] with the third argument their handler receives, the
    name of the formset when the notification was triggered with it, and
    [undefined] when it was dispatched without extra arguments. *)
Inductive event : Type :=
| Change (k : nat)
| FormsetAdded (formsetName : jsval)
| FormsetRemoved (formsetName : jsval).

(** [$('#id_product_variant')]: at most one element. *)
Definition product_variant_target (d : document) : list nat :=
  match indices_from (fun t => (t_id t =? "id_product_variant")%string) 0
                     (targets d) with
  | [] => []
  | k :: _ => [k]
  end.

(** [$('[name$="-a"], [name$="-b"], ...')] *)
Definition field_targets (u : unit_spec) (d : document) : list nat :=
  indices_from
    (fun t => existsb (fun suf => ends_with suf (t_name t)) (field_suffixes u))
    0 (targets d).

(** The [ready] handler: run the routine, then bind it. *)
Definition ready (u : unit_spec) (w : world) : page :=
  let w := filter_unit u w in
  {| state := w;
     listeners := product_variant_target (doc w) ++ field_targets u (doc w) |}.

(** Guard of the [formset:added] and [formset:removed] handlers:
    [formsetName === '<formset>' || formsetName === 'items']. *)
Definition formset_guard (u : unit_spec) (formsetName : jsval) : bool :=
  strict_eq formsetName (Str (formset_name u))
  || strict_eq formsetName (Str "items").

(** How many times the routine runs for an event. *)
Definition invocations (u : unit_spec) (ev : event) (p : page) : nat :=
  match ev with
  | Change k => count_occ Nat.eq_dec (listeners p) k
  | FormsetAdded formsetName | FormsetRemoved formsetName =>
      if formset_guard u formsetName then 1 else 0
  end.

Definition dispatch (u : unit_spec) (ev : event) (p : page) : page :=
  {| state := Nat.iter (invocations u ev p) (filter_unit u) (state p);
     listeners := listeners p |}.

End Script.
Export Script.

(** ** Vocabulary of the properties *)

Module Props.

(** The dependent selects of a script. *)
Definition is_dependent (u : unit_spec) (s : select) : bool :=
  includes (s_id s) (select_key u).

(** The values a select offers. *)
Definition option_values (s : select) : list string :=
  map option_value (options s).

(** The first option is the empty placeholder. *)
Definition placeholder_first (s : select) : Prop :=
  exists o rest, options s = o :: rest /\ option_value o = EmptyString.


(** One option of the drop-down is selected. *)
Definition has_selection (s : select) : Prop :=
  exists i o, selectedIndex s = Some i /\ options s !! i = Some o.

(** A drop-down as the admin renders it and the browser keeps it. *)
Definition dropdown (s : select) : Prop :=
  placeholder_first s /\ has_selection s.

(** The select has no value, or the empty value. *)
Definition cleared (s : select) : Prop :=
  val s = Null \/ val s = Str EmptyString.

(** [v] is among the values a select offers. *)
Definition present (v : jsval) (s : select) : Prop :=
  exists x, v = Str x /\ In x (option_values s).

(** The value [v] selected before a repopulation is kept by [s] if [s]
    still offers it, and [s] is cleared if not. *)
Definition retained_or_cleared (v : jsval) (s : select) : Prop :=
  (present v s -> val s = v) /\ (~ present v s -> cleared s).


(** The option the populators build for an entry with a string or numeric
    id. *)
Definition option_of_item (it : item) : option_el :=
  {| o_value := Some (to_string (item_id it)); o_text := item_text it |}.

(** The request the remote populator sends for the select [s] at position
    [i]. *)
Definition remote_request (u : unit_spec) (pvid : jsval) (i : nat)
  (s : select) : request :=
  {| r_type := "GET";
     r_url := autocomplete_url u;
     r_data := [("product_variant_id", pvid); ("q", Str EmptyString)];
     r_select := i;
     r_selectedValue := val s |}.

(** Net effect of one turn of the local populator on its select, for the
    entries [items] collected from the rows. *)
Definition local_select (u : unit_spec) (items : list item) (s : select)
  : select :=
  let s1 := append_items (val s) items
              (remove_options_not_first (prop_disabled false s)) in
  if (length items =? 0)%nat
  then after (help_p (empty_help u)) (prop_disabled true s1)
  else s1.

(** The select of a turn of the local populator when the rows are read:
    enabled, and left with its first option. *)
Definition emptied (s : select) : select :=
  remove_options_not_first (prop_disabled false s).

(** The document [d] with the selects [ss]. *)
Definition with_selects (ss : list select) (d : document) : document :=
  {| selects := ss; inputs := inputs d; elements := elements d |}.

(** The loop of the local populator over the selects, in closed form: [l1]
    are the selects the loop has gone through, [l2] those to come.  In the
    turn of a dependent select the rows are read in the document as it is
    then. *)
Fixpoint local_loop (u : unit_spec) (d : document) (l1 l2 : list select)
  : list select :=
  match l2 with
  | [] => l1
  | s :: l2' =>
      local_loop u d
        (l1 ++ [if is_dependent u s
                then local_select u
                       (collect_rows u (with_selects (l1 ++ emptied s :: l2') d))
                       s
                else s])
        l2'
  end.

(** One loop over a collection of selects, in closed form: the selects that
    satisfy [P] are changed by [f]. *)
Definition map_where (P : select -> bool) (f : select -> select)
  (l : list select) : list select :=
  map (fun s => if P s then f s else s) l.

(** The requests a loop sends, in closed form: [R n s] for the select [s]
    at position [n] when it satisfies [P]. *)
Fixpoint collect_from (P : select -> bool) (R : nat -> select -> list request)
  (n : nat) (l : list select) : list request :=
  match l with
  | [] => []
  | s :: l' => (if P s then R n s else []) ++ collect_from P R (S n) l'
  end.

(** The requests of one run of the remote populator. *)
Definition requests_from (u : unit_spec) (pvid : jsval) (l : list select)
  : list request :=
  collect_from (is_dependent u) (fun i s => [remote_request u pvid i s]) 0 l.

(** The world [w] with its selects replaced by [l] and the requests [reqs]
    sent. *)
Definition repopulated (l : list select) (reqs : list request) (w : world)
  : world :=
  {| pathname := pathname w;
     doc := {| selects := l; inputs := inputs (doc w);
               elements := elements (doc w) |};
     console := console w;
     pending := pending w ++ reqs |}.

(** *** Rows, in the words of the specification *)

(** The row is marked for deletion. *)
Definition marked_deleted (row : element) : bool :=
  existsb (fun c => ends_with "-DELETE" (c_name c) && c_checked c)
          (e_controls row).

(** The value of the sub-field of a row whose name ends in [suf]; [None]
    when the row has no such control or its value is empty. *)
Definition sub_field (suf : string) (row : element) : option string :=
  match List.find (fun c => ends_with suf (c_name c)) (e_controls row) with
  | Some c => if (c_value c =? EmptyString)%string then None
              else Some (c_value c)
  | None => None
  end.

(** The identifier of a row: the persisted primary key held by its hidden
    id input, or the id of the row element as a temporary identifier. *)
Definition row_identifier (row : element) : string :=
  match sub_field "-id" row with
  | Some pk => pk
  | None => e_id row
  end.

(** What a pricing-tier row contributes to the options. *)
Definition pricing_tier_contribution (row : element) : list option_el :=
  if marked_deleted row then []
  else match sub_field "-tier_type" row, sub_field "-range_start" row,
             sub_field "-range_end" row with
       | Some tierType, Some rangeStart, Some rangeEnd =>
           [ {| o_value := Some (row_identifier row);
                o_text := (tierType ++ " (" ++ rangeStart ++ "-"
                           ++ rangeEnd ++ ")")%string |} ]
       | _, _, _ => []
       end.

(** What a table-field row contributes to the options. *)
Definition table_field_contribution (row : element) : list option_el :=
  if marked_deleted row then []
  else match sub_field "-name" row, sub_field "-field_type" row with
       | Some name, Some fieldType =>
           [ {| o_value := Some (row_identifier row);
                o_text := (name ++ " (" ++ fieldType ++ ")")%string |} ]
       | _, _ => []
       end.

(** The row lacks a required sub-field of the script. *)
Definition lacks_required (u : unit_spec) (row : element) : Prop :=
  (u = pricing_tier_unit
   /\ (sub_field "-tier_type" row = None
       \/ sub_field "-range_start" row = None
       \/ sub_field "-range_end" row = None))
  \/ (u = table_field_unit
      /\ (sub_field "-name" row = None \/ sub_field "-field_type" row = None)).

(** *** The rows at the time they are read *)

(** The selects of the page when the local populator reads the rows in the
    turn of the select at position [i]: the selects before it are as the run
    leaves them, the select itself is enabled and has lost its options after
    the first, and the selects after it are as the loop that removes the
    help messages left them. *)
Definition selects_when_read (u : unit_spec) (w : world) (i : nat)
  : list select :=
  let l := map_where (is_dependent u) remove_next_help (selects (doc w)) in
  take i (selects (doc (local u w)))
  ++ match l !! i with
     | Some s => [emptied s]
     | None => []
     end
  ++ drop (S i) l.

(** The rows as the local populator reads them in that turn. *)
Definition rows_read_at (u : unit_spec) (w : world) (i : nat) : list element :=
  rows_read u (with_selects (selects_when_read u w i) (doc w)).

(** The entries it collects from them. *)
Definition items_read_at (u : unit_spec) (w : world) (i : nat) : list item :=
  collect_rows u (with_selects (selects_when_read u w i) (doc w)).

(** No sub-field of a formset row is a dependent select of the script. *)
Definition rows_apart (u : unit_spec) (d : document) : Prop :=
  forall row c k s,
    In row (formset_rows u d) -> In c (e_controls row) ->
    c_select c = Some k -> selects d !! k = Some s ->
    is_dependent u s = false.

(** The world [w] with other elements below its selects. *)
Definition set_elements (els : list element) (w : world) : world :=
  set_doc {| selects := selects (doc w); inputs := inputs (doc w);
             elements := els |} w.

(** [f] keeps the first option of a select. *)
Definition keeps_first (f : select -> select) : Prop :=
  forall s o rest, options s = o :: rest ->
                   exists rest', options (f s) = o :: rest'.

(** *** Runs of a script *)

(** One step of a page: the routine runs, or the answer to a pending
    request arrives. *)
Inductive step (u : unit_spec) : world -> world -> Prop :=
| step_filter : forall w, step u w (filter_unit u w)
| step_respond : forall w k resp, step u w (respond u k resp w).

Inductive steps (u : unit_spec) : world -> world -> Prop :=
| steps_refl : forall w, steps u w w
| steps_cons : forall w1 w2 w3, step u w1 w2 -> steps u w2 w3 -> steps u w1 w3.

End Props.
Export Props.

(** ** Sample pages *)

Module Examples.

Definition placeholder : option_el :=
  {| o_value := Some EmptyString; o_text := "---------" |}.

Definition tier5 : option_el :=
  {| o_value := Some "5"; o_text := "Pack (1-10)" |}.

(** The pricing-tier select of an Item form, with tier 5 chosen. *)
Definition tier_select : select :=
  {| s_id := "id_items-0-pricing_tier"; s_name := "items-0-pricing_tier";
     disabled := false; options := [placeholder; tier5];
     selectedIndex := Some 1; following := [] |}.

(** The table-field select of an Item form, with nothing chosen. *)
Definition field_select : select :=
  {| s_id := "id_items-0-field"; s_name := "items-0-field";
     disabled := false; options := [placeholder];
     selectedIndex := Some 0; following := [] |}.

(** The ProductVariant drop-down of the Item add page, nothing chosen. *)
Definition variant_select : select :=
  {| s_id := "id_product_variant"; s_name := "product_variant";
     disabled := false;
     options := [placeholder; {| o_value := Some "42"; o_text := "Box" |}];
     selectedIndex := Some 0; following := [] |}.

(** A control that is not a select. *)
Definition ctl (name value : string) (checked : bool) : control :=
  {| c_id := ("id_" ++ name)%string; c_name := name; c_value := value;
     c_checked := checked; c_select := None |}.

(** A saved pricing-tier row. *)
Definition tier_row_saved : element :=
  {| e_id := "pricing_tiers-0";
     e_controls := [ctl "pricing_tiers-0-id" "5" false;
                    ctl "pricing_tiers-0-tier_type" "Pack" false;
                    ctl "pricing_tiers-0-range_start" "1" false;
                    ctl "pricing_tiers-0-range_end" "10" false;
                    ctl "pricing_tiers-0-DELETE" "on" false] |}.

(** A new pricing-tier row, not saved yet. *)
Definition tier_row_new : element :=
  {| e_id := "pricing_tiers-1";
     e_controls := [ctl "pricing_tiers-1-id" EmptyString false;
                    ctl "pricing_tiers-1-tier_type" "Pallet" false;
                    ctl "pricing_tiers-1-range_start" "11" false;
                    ctl "pricing_tiers-1-range_end" "20" false;
                    ctl "pricing_tiers-1-DELETE" "on" false] |}.

(** A pricing-tier row whose range end has not been typed yet. *)
Definition tier_row_partial : element :=
  {| e_id := "pricing_tiers-2";
     e_controls := [ctl "pricing_tiers-2-id" EmptyString false;
                    ctl "pricing_tiers-2-tier_type" "Pallet" false;
                    ctl "pricing_tiers-2-range_start" "21" false;
                    ctl "pricing_tiers-2-range_end" EmptyString false;
                    ctl "pricing_tiers-2-DELETE" "on" false] |}.

(** A table-field row without a field type. *)
Definition field_row_partial : element :=
  {| e_id := "table_fields-0";
     e_controls := [ctl "table_fields-0-id" EmptyString false;
                    ctl "table_fields-0-name" "Width" false;
                    ctl "table_fields-0-field_type" EmptyString false] |}.

Definition page_at (path : string) (ss : list select) (rows : list element)
  : world :=
  {| pathname := path;
     doc := {| selects := ss; inputs := []; elements := rows |};
     console := []; pending := [] |}.

(** The change page of ProductVariant 42. *)
Definition change_page : world :=
  page_at "/admin/ecommerce/productvariant/42/change/"
       [tier_select; field_select] [tier_row_saved].

(** The add page of a ProductVariant that is not saved. *)
Definition add_page : world :=
  page_at "/admin/ecommerce/productvariant/add/"
       [tier_select; field_select]
       [tier_row_saved; tier_row_partial; tier_row_new; field_row_partial].

(** The Item add page with no ProductVariant chosen. *)
Definition item_add_page : world :=
  page_at "/admin/ecommerce/item/add/"
       [variant_select; tier_select; field_select] [].

(** The change page after [filterPricingTiers] has run: one request is
    pending for the pricing-tier select. *)
Definition change_page_waiting : world := filterPricingTiers change_page.

(** An answer whose ids are strings. *)
Definition string_results : list item :=
  [{| item_id := Str "5"; item_text := "Pack (1-10)" |};
   {| item_id := Str "6"; item_text := "Pallet (11-20)" |}].

(** The same answer with numeric ids. *)
Definition numeric_results : list item :=
  [{| item_id := Num 5; item_text := "Pack (1-10)" |};
   {| item_id := Num 6; item_text := "Pallet (11-20)" |}].

End Examples.

(** ** The shorter copy of the pricing-tier script *)

Module Legacy.

Definition productvariant_lit : string := "/productvariant/".

(** An expression [/<lit>(\d+)\/change\//] tried at the head of [s], for a
    literal [lit]. *)
Definition match_lit_here (lit s : string) : option string :=
  match strip_prefix lit s with
  | None => None
  | Some r =>
      let (ds, rest) := span_digits r in
      match ds with
      | EmptyString => None
      | String _ _ => if starts_with change_suffix rest then Some ds else None
      end
  end.

(** [s.match(/<lit>(\d+)\/change\//)] *)
Fixpoint match_lit (lit s : string) : option string :=
  match match_lit_here lit s with
  | Some d => Some d
  | None =>
      match s with
      | EmptyString => None
      | String _ s' => match_lit lit s'
      end
  end.

Definition isAddPage (w : world) : bool := includes (pathname w) "/add/".

(** [window.location.pathname.match(/\/productvariant\/\d+\/change\//)] *)
Definition isChangePage (w : world) : option string :=
  match_lit productvariant_lit (pathname w).

(** The value of [productVariantId] after the two tests on the path. *)
Definition productVariantId (w : world) : jsval :=
  if isAddPage w then
    if negb (length (hiddenIdInput (doc w)) =? 0)%nat
       && truthy (controls_val (hiddenIdInput (doc w)))
    then controls_val (hiddenIdInput (doc w))
    else Null
  else
    match isChangePage w with
    | Some _ =>
        match match_lit productvariant_lit (pathname w) with
        | Some d => Str d
        | None => Null
        end
    | None => Null
    end.

(** The routine of the shorter copy; its two populators are those of
    [filterPricingTiers]. *)
Definition filterPricingTiers (w : world) : world :=
  let pvid := productVariantId w in
  if truthy pvid then remote pricing_tier_unit pvid w
  else if isAddPage w then local pricing_tier_unit w
  else w.

(** Its [ready] handler: no listener on the ProductVariant drop-down. *)
Definition ready (w : world) : page :=
  let w := filterPricingTiers w in
  {| state := w; listeners := field_targets pricing_tier_unit (doc w) |}.

Definition dispatch (ev : event) (p : page) : page :=
  {| state := Nat.iter (invocations pricing_tier_unit ev p)
                       filterPricingTiers (state p);
     listeners := listeners p |}.

End Legacy.

(** ** Vocabulary of further properties *)

Module More.

(** The option built for an entry, whatever its id. *)
Definition result_option (it : item) : option_el :=
  fst (new_Option (item_text it) (item_id it) false false).

(** Every id of the list is a number. *)
Definition numeric_ids (items : list item) : Prop :=
  Forall (fun it => exists n, item_id it = Num n) items.

(** Two selects that differ at most by the option that is selected. *)
Definition same_but_selection (s1 s2 : select) : Prop :=
  s_id s1 = s_id s2 /\ s_name s1 = s_name s2 /\ disabled s1 = disabled s2
  /\ options s1 = options s2 /\ following s1 = following s2.

(** Every pending request was sent for a dependent select of the page. *)
Definition requests_target_dependents (u : unit_spec) (w : world) : Prop :=
  Forall (fun r => exists s, selects (doc w) !! r_select r = Some s
                             /\ is_dependent u s = true)
         (pending w).

(** The sibling right after the select is not a help message. *)
Definition no_help_next (s : select) : Prop :=
  match following s with
  | [] => True
  | n :: _ => is_help n = false
  end.

(** The last character of a string. *)
Fixpoint last_char (s : string) : option ascii :=
  match s with
  | EmptyString => None
  | String c EmptyString => Some c
  | String _ s' => last_char s'
  end.

(** The path contains an occurrence of [<lit><digits>/change/]. *)
Definition has_change_pattern (lit path : string) : Prop :=
  exists pre ds post,
    path = (pre ++ lit ++ ds ++ change_suffix ++ post)%string
    /\ all_digits ds = true /\ ds <> EmptyString.

End More.
Export More.

(** ** More sample pages *)

Module Samples.

(** The list page of the ProductVariants. *)
Definition list_page : world :=
  Examples.page_at "/admin/ecommerce/productvariant/"
    [Examples.tier_select; Examples.field_select] [].

(** The add page of a ProductVariant after a first save: the hidden input
    named [id] holds the primary key. *)
Definition saved_add_page : world :=
  {| pathname := "/admin/ecommerce/productvariant/add/";
     doc := {| selects := [Examples.tier_select; Examples.field_select];
               inputs := [{| c_id := "id_id"; c_name := "id"; c_value := "7";
                             c_checked := false; c_select := None |}];
               elements := [Examples.tier_row_saved] |};
     console := []; pending := [] |}.

(** The add page of a ProductVariant without any row. *)
Definition empty_add_page : world :=
  Examples.page_at "/admin/ecommerce/productvariant/add/"
    [Examples.tier_select; Examples.field_select] [].

(** The ProductVariant drop-down with variant 42 chosen. *)
Definition variant_select_chosen : select :=
  {| s_id := "id_product_variant"; s_name := "product_variant";
     disabled := false;
     options := [Examples.placeholder;
                 {| o_value := Some "42"; o_text := "Box" |}];
     selectedIndex := Some 1; following := [] |}.

(** The Item add page once the routine has disabled the pricing-tier
    select and the user has chosen variant 42. *)
Definition item_add_page_chosen : world :=
  Examples.page_at "/admin/ecommerce/item/add/"
    [variant_select_chosen; no_parent_select Examples.tier_select;
     Examples.field_select] [].

(** The pricing-tier select with the placeholder chosen. *)
Definition tier_select_cleared : select :=
  {| s_id := "id_items-0-pricing_tier"; s_name := "items-0-pricing_tier";
     disabled := false;
     options := [Examples.placeholder; Examples.tier5];
     selectedIndex := Some 0; following := [] |}.

(** The tier-type drop-down of a pricing-tier row, with Pallet chosen; its
    id contains [pricing_tier]. *)
Definition tier_type_select : select :=
  {| s_id := "id_pricing_tiers-0-tier_type";
     s_name := "pricing_tiers-0-tier_type";
     disabled := false;
     options := [Examples.placeholder;
                 {| o_value := Some "pallet"; o_text := "Pallet" |}];
     selectedIndex := Some 1; following := [] |}.

(** A new pricing-tier row whose tier type is that drop-down, the select at
    position 1 of the page. *)
Definition tier_row_with_select : element :=
  {| e_id := "pricing_tiers-0";
     e_controls := [Examples.ctl "pricing_tiers-0-id" EmptyString false;
                    {| c_id := "id_pricing_tiers-0-tier_type";
                       c_name := "pricing_tiers-0-tier_type";
                       c_value := EmptyString; c_checked := false;
                       c_select := Some 1 |};
                    Examples.ctl "pricing_tiers-0-range_start" "1" false;
                    Examples.ctl "pricing_tiers-0-range_end" "10" false;
                    Examples.ctl "pricing_tiers-0-DELETE" "on" false] |}.

(** The add page of a ProductVariant with that row below the pricing-tier
    select of an Item form. *)
Definition add_page_with_select : world :=
  Examples.page_at "/admin/ecommerce/productvariant/add/"
    [Examples.tier_select; tier_type_select] [tier_row_with_select].

End Samples.

(** ** Facts about the string tests *)

Section TextFacts.

Local Notation "a +++ b" := (String.append a b)
  (at level 60, right associativity).

Lemma strip_prefix_app (p s : string) : strip_prefix p (p +++ s) = Some s.
Proof.
  induction p as [|a p IH]; simpl; [reflexivity|].
  now rewrite Ascii.eqb_refl.
Qed.

Lemma strip_prefix_inv (p : string) :
  forall s r, strip_prefix p s = Some r -> s = p +++ r.
Proof.
  induction p as [|a p IH]; simpl; intros s r H.
  - now inversion H.
  - destruct s as [|b s]; [discriminate|].
    destruct (Ascii.eqb a b) eqn:E; [|discriminate].
    apply Ascii.eqb_eq in E. subst b. f_equal. now apply IH.
Qed.

Lemma starts_with_app (p s : string) : starts_with p (p +++ s) = true.
Proof. unfold starts_with. now rewrite strip_prefix_app. Qed.

Lemma starts_with_inv (p s : string) :
  starts_with p s = true -> exists r, s = p +++ r.
Proof.
  unfold starts_with. destruct (strip_prefix p s) as [r|] eqn:E; [|discriminate].
  intros _. exists r. now apply strip_prefix_inv.
Qed.

Lemma includes_head (s sub : string) :
  starts_with sub s = true -> includes s sub = true.
Proof. intros H. destruct s; simpl; now rewrite H. Qed.

Lemma includes_app (pre sub post : string) :
  includes (pre +++ sub +++ post) sub = true.
Proof.
  induction pre as [|c pre IH].
  - cbn [String.append]. apply includes_head, starts_with_app.
  - cbn [String.append includes]. rewrite IH. now destruct (starts_with sub _).
Qed.

Lemma includes_inv (s : string) :
  forall sub, includes s sub = true -> exists pre post, s = pre +++ sub +++ post.
Proof.
  induction s as [|c s IH]; intros sub; simpl.
  - destruct (starts_with sub EmptyString) eqn:E; [|discriminate].
    intros _. apply starts_with_inv in E as [r ->]. now exists EmptyString, r.
  - destruct (starts_with sub (String c s)) eqn:E.
    + intros _. apply starts_with_inv in E as [r E]. exists EmptyString, r. exact E.
    + intros H. apply IH in H as (pre & post & ->).
      now exists (String c pre), post.
Qed.

Lemma span_digits_spec (s : string) :
  s = fst (span_digits s) +++ snd (span_digits s)
  /\ all_digits (fst (span_digits s)) = true
  /\ no_leading_digit (snd (span_digits s)).
Proof.
  induction s as [|c s (IH1 & IH2 & IH3)]; simpl; [easy|].
  destruct (is_digit c) eqn:E.
  - destruct (span_digits s) as [ds rest]; simpl in *.
    rewrite E, IH2. repeat split; [now f_equal | assumption].
  - simpl. now rewrite E.
Qed.

Lemma span_digits_app (ds rest : string) :
  all_digits ds = true -> no_leading_digit rest ->
  span_digits (ds +++ rest) = (ds, rest).
Proof.
  intros Hd Hr. induction ds as [|c ds IH]; simpl in *.
  - destruct rest as [|c rest]; [reflexivity|]. simpl in *. now rewrite Hr.
  - apply andb_true_iff in Hd as [Hc Hd]. now rewrite Hc, IH.
Qed.

Lemma no_leading_digit_change (post : string) :
  no_leading_digit (change_suffix +++ post).
Proof. reflexivity. Qed.

(** The expression matches at the head of a string exactly when the string
    is the literal prefix, a non-empty run of digits, and [/change/]. *)
Lemma match_here_complete (ds post : string) :
  all_digits ds = true -> ds <> EmptyString ->
  match_here (productvariant_prefix +++ ds +++ change_suffix +++ post) = Some ds.
Proof.
  intros Hd Hne. unfold match_here.
  rewrite strip_prefix_app.
  rewrite (span_digits_app ds _ Hd (no_leading_digit_change post)).
  destruct ds; [congruence|]. now rewrite starts_with_app.
Qed.

Lemma match_here_sound (s d : string) :
  match_here s = Some d ->
  all_digits d = true /\ d <> EmptyString
  /\ exists post, s = productvariant_prefix +++ d +++ change_suffix +++ post.
Proof.
  unfold match_here.
  destruct (strip_prefix productvariant_prefix s) as [r|] eqn:E; [|discriminate].
  apply strip_prefix_inv in E.
  destruct (span_digits_spec r) as (H1 & H2 & _).
  destruct (span_digits r) as [ds rest]; simpl in *.
  destruct ds as [|c ds]; [discriminate|].
  destruct (starts_with change_suffix rest) eqn:Es; [|discriminate].
  intros [= <-]. apply starts_with_inv in Es as [post ->].
  repeat split; [assumption | discriminate |].
  exists post. now rewrite E, H1.
Qed.

Lemma match_change_sound (s : string) :
  forall d, match_change s = Some d ->
  all_digits d = true /\ d <> EmptyString
  /\ exists pre post,
       s = pre +++ productvariant_prefix +++ d +++ change_suffix +++ post.
Proof.
  induction s as [|c s IH]; intros d; simpl.
  - discriminate.
  - destruct (match_here (String c s)) eqn:E.
    + intros [= ->]. apply match_here_sound in E as (H1 & H2 & post & H3).
      repeat split; try assumption. now exists EmptyString, post.
    + intros H. apply IH in H as (H1 & H2 & pre & post & ->).
      repeat split; try assumption. now exists (String c pre), post.
Qed.

(** [match] finds the leftmost place where the expression matches. *)
Lemma match_change_leftmost (pre : string) :
  forall s ds post,
    s = pre +++ productvariant_prefix +++ ds +++ change_suffix +++ post ->
    all_digits ds = true -> ds <> EmptyString ->
    exists d pre' post',
      match_change s = Some d
      /\ s = pre' +++ productvariant_prefix +++ d +++ change_suffix +++ post'
      /\ all_digits d = true /\ d <> EmptyString
      /\ String.length pre' <= String.length pre
      /\ (String.length pre' = String.length pre -> d = ds).
Proof.
  induction pre as [|c pre IH]; intros s ds post Hs Hd Hne.
  - cbn [String.append] in Hs.
    pose proof (match_here_complete ds post Hd Hne) as Hm.
    rewrite <- Hs in Hm.
    exists ds, EmptyString, post.
    repeat split; try assumption; try reflexivity.
    destruct s; cbn [match_change]; now rewrite Hm.
  - cbn [String.append] in Hs. subst s. cbn [match_change].
    destruct (match_here (String c _)) as [d|] eqn:E.
    + pose proof (match_here_sound _ _ E) as (H1 & H2 & post' & H3).
      exists d, EmptyString, post'. repeat split; try assumption.
      * cbn [String.length]. lia.
      * cbn [String.length]. discriminate.
    + destruct (IH _ ds post eq_refl Hd Hne)
        as (d & pre' & post' & H1 & H2 & H3 & H4 & H5 & H6).
      exists d, (String c pre'), post'. rewrite H1. repeat split; try assumption.
      * cbn [String.append]. now f_equal.
      * cbn [String.length]. lia.
      * cbn [String.length]. intros [= H]; auto.
Qed.

End TextFacts.

(** ** The loops in closed form *)

Section Loops.

Lemma repopulated_id (w : world) : repopulated (selects (doc w)) [] w = w.
Proof.
  destruct w as [p [ss ins els] c q]. unfold repopulated; simpl.
  now rewrite app_nil_r.
Qed.

Lemma repopulated_twice (l1 l2 : list select) (r1 r2 : list request) (w : world) :
  repopulated l2 r2 (repopulated l1 r1 w) = repopulated l2 (r1 ++ r2) w.
Proof. unfold repopulated; simpl. now rewrite app_assoc. Qed.

Lemma update_select_repopulated (i : nat) (f : select -> select) (w : world) :
  update_select i f w = repopulated (alter f i (selects (doc w))) [] w.
Proof.
  unfold update_select, repopulated, set_doc; simpl. now rewrite app_nil_r.
Qed.

Lemma alter_middle (f : select -> select) (l1 l2 : list select) (x : select) :
  alter f (length l1) (l1 ++ x :: l2) = l1 ++ f x :: l2.
Proof.
  replace (length l1) with (length l1 + 0) by lia.
  now rewrite alter_app_r.
Qed.

Lemma lookup_middle (l1 l2 : list select) (x : select) :
  (l1 ++ x :: l2) !! length l1 = Some x.
Proof. now rewrite list_lookup_middle. Qed.

(** A loop whose body changes its own select by [G] and sends [R]. *)
Lemma each_closed (P : select -> bool) (G : select -> select)
  (R : nat -> select -> list request) (E : list element)
  (body : nat -> world -> world) :
  (forall i w s,
      elements (doc w) = E -> selects (doc w) !! i = Some s ->
      body i w = repopulated (alter G i (selects (doc w))) (R i s) w) ->
  forall l2 l1 w,
    elements (doc w) = E -> selects (doc w) = l1 ++ l2 ->
    each (indices_from P (length l1) l2) body w
    = repopulated (l1 ++ map_where P G l2) (collect_from P R (length l1) l2) w.
Proof.
  intros Hbody. unfold each, map_where.
  induction l2 as [|x l2 IH]; intros l1 w HE Hl.
  - simpl. rewrite <- Hl. symmetry. apply repopulated_id.
  - assert (Hl' : forall y : select, l1 ++ y :: l2 = (l1 ++ [y]) ++ l2)
      by (intros y; now rewrite <- app_assoc).
    assert (Hlen : forall y : select, length (l1 ++ [y]) = S (length l1))
      by (intros y; rewrite length_app; simpl; lia).
    cbn [indices_from collect_from map].
    destruct (P x) eqn:HP.
    + cbn [fold_left].
      rewrite (Hbody (length l1) w x HE) by (rewrite Hl; apply lookup_middle).
      rewrite Hl, alter_middle.
      rewrite <- (Hlen (G x)).
      rewrite IH; [|exact HE|simpl; apply Hl'].
      rewrite repopulated_twice. now rewrite <- app_assoc.
    + rewrite <- (Hlen x).
      rewrite IH; [|exact HE|rewrite Hl; apply Hl'].
      now rewrite <- app_assoc.
Qed.

Lemma each_closed_0 (P : select -> bool) (G : select -> select)
  (R : nat -> select -> list request) (body : nat -> world -> world)
  (w : world) :
  (forall i w' s,
      elements (doc w') = elements (doc w) -> selects (doc w') !! i = Some s ->
      body i w' = repopulated (alter G i (selects (doc w'))) (R i s) w') ->
  each (indices_from P 0 (selects (doc w))) body w
  = repopulated (map_where P G (selects (doc w)))
                (collect_from P R 0 (selects (doc w))) w.
Proof.
  intros Hbody.
  apply (each_closed P G R (elements (doc w)) body Hbody (selects (doc w)) [] w);
    reflexivity.
Qed.

End Loops.

Section ClosedForms.

Variable u : unit_spec.

Lemma collect_from_nothing (P : select -> bool) (l : list select) :
  forall n, collect_from P (fun _ _ => []) n l = [].
Proof.
  induction l as [|x l IH]; intros n; simpl; [reflexivity|].
  rewrite IH. now destruct (P x).
Qed.

Lemma indices_from_map_where {A : Type} (P : A -> bool) (f : A -> A) (l : list A) :
  (forall x, P (f x) = P x) ->
  forall n, indices_from P n (map (fun x => if P x then f x else x) l)
            = indices_from P n l.
Proof.
  intros Hf. induction l as [|x l IH]; intros n; simpl; [reflexivity|].
  destruct (P x) eqn:HP; rewrite ?Hf, ?HP, IH; reflexivity.
Qed.

Lemma map_where_compose (P : select -> bool) (f g : select -> select)
  (l : list select) :
  (forall s, P (f s) = P s) ->
  map_where P g (map_where P f l) = map_where P (fun s => g (f s)) l.
Proof.
  intros Hf. unfold map_where. rewrite map_map. apply map_ext. intros s.
  destruct (P s) eqn:HP; [now rewrite Hf, HP | now rewrite HP].
Qed.

Lemma collect_from_map_where (P : select -> bool)
  (R : nat -> select -> list request) (f : select -> select) (l : list select) :
  (forall s, P (f s) = P s) -> (forall n s, R n (f s) = R n s) ->
  forall n, collect_from P R n (map_where P f l) = collect_from P R n l.
Proof.
  intros Hf HR. unfold map_where.
  induction l as [|x l IH]; intros n; simpl; [reflexivity|].
  rewrite IH. destruct (P x) eqn:HP; [now rewrite Hf, HP, HR | now rewrite HP].
Qed.

(** A loop that only changes its selects. *)
Lemma each_update (f : select -> select) (w : world) :
  each (matched u w) (fun i => update_select i f) w
  = repopulated (map_where (is_dependent u) f (selects (doc w))) [] w.
Proof.
  unfold matched.
  rewrite (each_closed_0 (is_dependent u) f (fun _ _ => [])).
  - now rewrite collect_from_nothing.
  - intros i w' s _ _. apply update_select_repopulated.
Qed.

Lemma is_dependent_remove_next_help (s : select) :
  is_dependent u (remove_next_help s) = is_dependent u s.
Proof. reflexivity. Qed.

Lemma val_remove_next_help (s : select) : val (remove_next_help s) = val s.
Proof. reflexivity. Qed.

Lemma remote_body_closed (pvid : jsval) (i : nat) (w : world) (s : select) :
  selects (doc w) !! i = Some s ->
  remote_body u pvid i w
  = repopulated (alter (prop_disabled false) i (selects (doc w)))
                [remote_request u pvid i s] w.
Proof. intros H. unfold remote_body. now rewrite H. Qed.

(** The remote populator in closed form. *)
Lemma remote_closed (pvid : jsval) (w : world) :
  remote u pvid w
  = repopulated
      (map_where (is_dependent u)
         (fun s => prop_disabled false (remove_next_help s)) (selects (doc w)))
      (requests_from u pvid (selects (doc w))) w.
Proof.
  unfold remote. rewrite each_update.
  set (w1 := repopulated _ [] w).
  unfold matched.
  rewrite (each_closed_0 (is_dependent u) (prop_disabled false)
             (fun i s => [remote_request u pvid i s])).
  - subst w1. rewrite repopulated_twice. cbn [repopulated doc selects].
    rewrite map_where_compose by reflexivity.
    unfold requests_from.
    rewrite collect_from_map_where by reflexivity.
    reflexivity.
  - intros i w' s _ H. now apply remote_body_closed.
Qed.

Lemma alter_alter (f g : select -> select) (i : nat) (l : list select) :
  alter f i (alter g i l) = alter (fun s => f (g s)) i l.
Proof. apply list_alter_alter_eq. Qed.

Lemma update_select_twice (f g : select -> select) (i : nat) (w : world) :
  update_select i f (update_select i g w) = update_select i (fun s => f (g s)) w.
Proof.
  unfold update_select, set_doc. cbn [doc selects inputs elements pathname console pending].
  now rewrite alter_alter.
Qed.

Lemma update_select_ext (f g : select -> select) (i : nat) (w : world) :
  (forall s, selects (doc w) !! i = Some s -> f s = g s) ->
  update_select i f w = update_select i g w.
Proof.
  intros H. unfold update_select. f_equal. f_equal.
  now apply list_alter_ext.
Qed.

Lemma elements_update_select (f : select -> select) (i : nat) (w : world) :
  elements (doc (update_select i f w)) = elements (doc w).
Proof. reflexivity. Qed.

Lemma local_body_closed (i : nat) (w : world) (s : select) :
  selects (doc w) !! i = Some s ->
  local_body u i w
  = repopulated
      (alter (local_select u
                (collect_rows u
                   (with_selects (alter emptied i (selects (doc w))) (doc w))))
             i (selects (doc w)))
      [] w.
Proof.
  intros H. unfold local_body. rewrite H.
  replace (collect_rows u (doc (update_select i remove_options_not_first
                                  (update_select i (prop_disabled false) w))))
    with (collect_rows u
            (with_selects (alter emptied i (selects (doc w))) (doc w))).
  2: { unfold update_select, set_doc, with_selects.
       cbn [doc selects inputs elements]. now rewrite alter_alter. }
  set (items := collect_rows u _).
  rewrite <- update_select_repopulated.
  destruct (length items =? 0)%nat eqn:E; rewrite !update_select_twice;
    apply update_select_ext; intros x Hx; rewrite H in Hx; injection Hx as <-;
    unfold local_select; rewrite E; reflexivity.
Qed.

Lemma local_loop_doc (d d' : document) :
  inputs d = inputs d' -> elements d = elements d' ->
  forall l2 l1, local_loop u d l1 l2 = local_loop u d' l1 l2.
Proof.
  intros Hi He. induction l2 as [|s l2 IH]; intros l1; [reflexivity|].
  cbn [local_loop]. rewrite IH. unfold with_selects. now rewrite Hi, He.
Qed.

(** The loop of the local populator, turn after turn. *)
Lemma each_local_loop :
  forall l2 l1 w,
    selects (doc w) = l1 ++ l2 ->
    each (indices_from (is_dependent u) (length l1) l2) (local_body u) w
    = repopulated (local_loop u (doc w) l1 l2) [] w.
Proof.
  unfold each. induction l2 as [|x l2 IH]; intros l1 w Hl.
  - simpl. rewrite app_nil_r in Hl. rewrite <- Hl. symmetry.
    apply repopulated_id.
  - assert (Hl' : forall y : select, l1 ++ y :: l2 = (l1 ++ [y]) ++ l2)
      by (intros y; now rewrite <- app_assoc).
    assert (Hlen : forall y : select, length (l1 ++ [y]) = S (length l1))
      by (intros y; rewrite length_app; simpl; lia).
    cbn [indices_from local_loop].
    destruct (is_dependent u x) eqn:HP.
    + cbn [fold_left].
      rewrite (local_body_closed (length l1) w x)
        by (rewrite Hl; apply lookup_middle).
      rewrite Hl, !alter_middle.
      set (y := local_select u _ x).
      rewrite <- (Hlen y).
      rewrite IH by (simpl; apply Hl').
      rewrite repopulated_twice. simpl app. f_equal.
      now apply local_loop_doc.
    + rewrite <- (Hlen x).
      now rewrite IH by (rewrite Hl; apply Hl').
Qed.

(** The local populator in closed form. *)
Lemma local_closed (w : world) :
  local u w
  = repopulated
      (local_loop u (doc w) []
         (map_where (is_dependent u) remove_next_help (selects (doc w))))
      [] w.
Proof.
  unfold local. rewrite each_update.
  set (w1 := repopulated _ [] w).
  transitivity (repopulated (local_loop u (doc w1) [] (selects (doc w1))) [] w1);
    [exact (each_local_loop (selects (doc w1)) [] w1 eq_refl)|].
  subst w1. rewrite repopulated_twice. cbn [app]. f_equal.
  now apply local_loop_doc.
Qed.

(** What the loop leaves at each position: the selects it has gone through
    stay, and the select of a turn is repopulated from the rows read with
    the selects before it as the loop left them, the select itself emptied
    and the selects after it untouched. *)
Lemma local_loop_spec (d : document) :
  forall l2 l1,
    length (local_loop u d l1 l2) = length l1 + length l2
    /\ take (length l1) (local_loop u d l1 l2) = l1
    /\ forall k s,
         l2 !! k = Some s ->
         local_loop u d l1 l2 !! (length l1 + k)
         = Some (if is_dependent u s
                 then local_select u
                        (collect_rows u
                           (with_selects
                              (take (length l1 + k) (local_loop u d l1 l2)
                               ++ emptied s :: drop (S k) l2) d))
                        s
                 else s).
Proof.
  induction l2 as [|x l2 IH]; intros l1.
  - cbn [local_loop length]. split; [lia|]. split; [now apply take_ge|].
    intros k s H. discriminate H.
  - cbn [local_loop].
    set (y := if is_dependent u x then _ else x).
    destruct (IH (l1 ++ [y])) as (Hlen & Htake & Hat).
    set (F := local_loop u d (l1 ++ [y]) l2) in *.
    rewrite length_app in Hlen, Htake, Hat. cbn [length] in Hlen, Htake, Hat.
    assert (Htake1 : take (length l1) F = l1).
    { replace (take (length l1) F)
        with (take (length l1) (take (length l1 + 1) F))
        by (rewrite take_take; f_equal; lia).
      rewrite Htake. now rewrite take_app_length. }
    assert (Hy : F !! length l1 = Some y).
    { rewrite <- (lookup_take_lt F (length l1 + 1) (length l1)) by lia.
      rewrite Htake. apply lookup_middle. }
    split; [cbn [length]; lia|]. split; [exact Htake1|].
    intros [|k] s Hk.
    + injection Hk as <-. rewrite Nat.add_0_r, Hy, Htake1. reflexivity.
    + replace (length l1 + S k) with (length l1 + 1 + k) by lia.
      exact (Hat k s Hk).
Qed.

End ClosedForms.

(** ** Selects under the populators *)

Section SelectFacts.

Lemma strict_eq_Str (a : jsval) (x : string) :
  strict_eq a (Str x) = true <-> a = Str x.
Proof.
  destruct a; simpl; split; try discriminate; try congruence.
  - intros H. apply String.eqb_eq in H. now subst.
  - intros [= ->]. apply String.eqb_refl.
Qed.

Lemma append_items_snoc (v : jsval) (items : list item) (it : item) (s : select) :
  append_items v (items ++ [it]) s
  = append (new_Option (item_text it) (item_id it) false
                       (strict_eq (item_id it) v))
           (append_items v items s).
Proof. unfold append_items. now rewrite fold_left_app. Qed.

Lemma options_append_items (v : jsval) (items : list item) :
  forall s,
    options (append_items v items s)
    = options s
      ++ map (fun it => fst (new_Option (item_text it) (item_id it) false
                                        (strict_eq (item_id it) v))) items.
Proof.
  induction items as [|it items IH]; intros s; simpl.
  - now rewrite app_nil_r.
  - unfold append_items in *. simpl. rewrite IH. simpl.
    now rewrite <- app_assoc.
Qed.



Lemma append_items_frame (v : jsval) (items : list item) :
  forall s,
    s_id (append_items v items s) = s_id s
    /\ s_name (append_items v items s) = s_name s
    /\ disabled (append_items v items s) = disabled s
    /\ following (append_items v items s) = following s.
Proof.
  induction items as [|it items IH]; intros s; [easy|].
  unfold append_items in *. simpl.
  destruct (IH (append (new_Option (item_text it) (item_id it) false
                          (strict_eq (item_id it) v)) s)) as (H1 & H2 & H3 & H4).
  now rewrite H1, H2, H3, H4.
Qed.

(** When no entry is strictly equal to the value, the selection is left to
    the browser: it stays, or falls on the first option. *)
Lemma selectedIndex_append_no_match (v : jsval) (items : list item) :
  Forall (fun it => strict_eq (item_id it) v = false) items ->
  forall s,
    selectedIndex (append_items v items s)
    = match selectedIndex s with
      | Some i => Some i
      | None => match items with [] => None | _ :: _ => Some 0 end
      end.
Proof.
  induction 1 as [|it items Hit _ IH]; intros s.
  - simpl. now destruct (selectedIndex s).
  - unfold append_items in *. simpl. rewrite IH. simpl. rewrite Hit.
    now destruct (selectedIndex s).
Qed.

Lemma val_append_unselected (o : option_el) (s : select) (x : string) :
  val s = Str x -> val (append (o, false) s) = Str x.
Proof.
  unfold val. simpl.
  destruct (selectedIndex s) as [i|]; [|discriminate].
  destruct (options s !! i) as [o'|] eqn:E; [|discriminate].
  intros H. now rewrite (lookup_app_l_Some _ _ _ _ E).
Qed.

Lemma val_append_selected (o : option_el) (s : select) :
  val (append (o, true) s) = Str (option_value o).
Proof.
  unfold val. simpl. now rewrite list_lookup_middle.
Qed.

(** When some entry is strictly equal to the selected string, the select
    ends with that value. *)
Lemma val_append_match (x : string) (items : list item) (s : select) :
  Exists (fun it => strict_eq (item_id it) (Str x) = true) items ->
  val (append_items (Str x) items s) = Str x.
Proof.
  induction items as [|it items IH] using rev_ind; intros H.
  - inversion H.
  - rewrite append_items_snoc.
    destruct (strict_eq (item_id it) (Str x)) eqn:E.
    + unfold new_Option. rewrite val_append_selected.
      apply strict_eq_Str in E. now rewrite E.
    + unfold new_Option. apply val_append_unselected. apply IH.
      apply Exists_app in H as [H|H]; [assumption|].
      inversion H as [? ? H'|? ? H']; [congruence | inversion H'].
Qed.

Lemma remove_options_not_first_dropdown (s : select) (o : option_el)
  (rest : list option_el) :
  options s = o :: rest -> has_selection s ->
  options (remove_options_not_first s) = [o]
  /\ selectedIndex (remove_options_not_first s) = Some 0.
Proof.
  intros Ho (i & o' & Hi & Hl). unfold remove_options_not_first. rewrite Ho.
  destruct rest as [|o2 rest]; simpl; [|easy].
  split; [assumption|]. rewrite Hi. rewrite Ho in Hl.
  destruct i as [|i]; [reflexivity | discriminate].
Qed.

Lemma val_first (s : select) (o : option_el) (rest : list option_el) :
  options s = o :: rest -> selectedIndex s = Some 0 ->
  val s = Str (option_value o).
Proof. intros Ho Hi. unfold val. now rewrite Hi, Ho. Qed.

End SelectFacts.

(** ** The selected value across a repopulation *)

Section KeepOrClear.



Lemma index_of_value_head (o : option_el) (os : list option_el) :
  option_value o = EmptyString -> index_of_value EmptyString (o :: os) = Some 0.
Proof. intros H. simpl. now rewrite H. Qed.



End KeepOrClear.

(** ** The rows read by the local populator *)

Section RowFacts.

Lemma truthy_and_then (a b : jsval) :
  truthy (and_then a b) = truthy a && truthy b.
Proof. unfold and_then. destruct (truthy a) eqn:E; simpl; congruence. Qed.

Lemma push_row_app (u : unit_spec) (acc : list item) (row : element) :
  push_row u acc row = acc ++ push_row u [] row.
Proof.
  unfold push_row.
  destruct (is_checked _); [now rewrite app_nil_r|].
  destruct (row_item u row); [reflexivity | now rewrite app_nil_r].
Qed.

Lemma fold_push_row (u : unit_spec) (rows : list element) :
  forall acc,
    fold_left (push_row u) rows acc = acc ++ flat_map (push_row u []) rows.
Proof.
  induction rows as [|row rows IH]; intros acc; simpl.
  - now rewrite app_nil_r.
  - rewrite IH, (push_row_app u acc row). now rewrite <- app_assoc.
Qed.

(** The array a script collects is the concatenation of what each row
    pushes. *)
Lemma collect_rows_flat_map (u : unit_spec) (d : document) :
  collect_rows u d = flat_map (push_row u []) (rows_read u d).
Proof. unfold collect_rows. now rewrite fold_push_row. Qed.

Lemma is_checked_marked_deleted (row : element) :
  is_checked (find_name_suffix "-DELETE" row) = marked_deleted row.
Proof.
  unfold is_checked, find_name_suffix, marked_deleted.
  induction (e_controls row) as [|c cs IH]; simpl; [reflexivity|].
  destruct (ends_with "-DELETE" (c_name c)); simpl; now rewrite IH.
Qed.

Lemma controls_val_find (suf : string) (row : element) :
  controls_val (find_name_suffix suf row)
  = match List.find (fun c => ends_with suf (c_name c)) (e_controls row) with
    | Some c => Str (c_value c)
    | None => Undefined
    end.
Proof.
  unfold find_name_suffix.
  induction (e_controls row) as [|c cs IH]; simpl; [reflexivity|].
  now destruct (ends_with suf (c_name c)).
Qed.

(** [sub_field] is the value the script reads when it is truthy. *)
Lemma sub_field_spec (suf : string) (row : element) :
  match sub_field suf row with
  | Some x => controls_val (find_name_suffix suf row) = Str x
              /\ truthy (Str x) = true
  | None => truthy (controls_val (find_name_suffix suf row)) = false
  end.
Proof.
  rewrite controls_val_find. unfold sub_field.
  destruct (List.find _ (e_controls row)) as [c|]; [|reflexivity].
  destruct (c_value c =? EmptyString)%string eqn:E; simpl; now rewrite E.
Qed.

Lemma or_else_row_identifier (row : element) :
  or_else (controls_val (find_name_suffix "-id" row)) (Str (e_id row))
  = Str (row_identifier row).
Proof.
  pose proof (sub_field_spec "-id" row) as H. unfold row_identifier, or_else.
  destruct (sub_field "-id" row) as [pk|].
  - destruct H as [H1 H2]. now rewrite H1, H2.
  - now rewrite H.
Qed.

(** What [filterPricingTiers] pushes for a row, as options. *)
Lemma pricing_tier_push_row (row : element) :
  map option_of_item (push_row pricing_tier_unit [] row)
  = pricing_tier_contribution row.
Proof.
  unfold push_row, pricing_tier_contribution.
  rewrite is_checked_marked_deleted.
  destruct (marked_deleted row); [reflexivity|].
  cbn [row_item pricing_tier_unit]. unfold pricing_tier_row_item.
  rewrite !truthy_and_then, or_else_row_identifier.
  pose proof (sub_field_spec "-tier_type" row) as Ht.
  pose proof (sub_field_spec "-range_start" row) as Ha.
  pose proof (sub_field_spec "-range_end" row) as Hb.
  destruct (sub_field "-tier_type" row) as [t|];
    [destruct Ht as [Ht1 Ht2]; rewrite Ht1, Ht2 | now rewrite Ht].
  destruct (sub_field "-range_start" row) as [a|];
    [destruct Ha as [Ha1 Ha2]; rewrite Ha1, Ha2 | now rewrite Ha].
  destruct (sub_field "-range_end" row) as [b|];
    [destruct Hb as [Hb1 Hb2]; rewrite Hb1, Hb2 | now rewrite Hb].
  reflexivity.
Qed.

(** What [filterFields] pushes for a row, as options. *)
Lemma table_field_push_row (row : element) :
  map option_of_item (push_row table_field_unit [] row)
  = table_field_contribution row.
Proof.
  unfold push_row, table_field_contribution.
  rewrite is_checked_marked_deleted.
  destruct (marked_deleted row); [reflexivity|].
  cbn [row_item table_field_unit]. unfold table_field_row_item.
  rewrite !truthy_and_then, or_else_row_identifier.
  pose proof (sub_field_spec "-name" row) as Hn.
  pose proof (sub_field_spec "-field_type" row) as Hf.
  destruct (sub_field "-name" row) as [n|];
    [destruct Hn as [Hn1 Hn2]; rewrite Hn1, Hn2 | now rewrite Hn].
  destruct (sub_field "-field_type" row) as [f|];
    [destruct Hf as [Hf1 Hf2]; rewrite Hf1, Hf2 | now rewrite Hf].
  reflexivity.
Qed.

(** The entries of both scripts carry the row identifier, a string. *)
Lemma row_item_identifier (u : unit_spec) (row : element) (it : item) :
  u = pricing_tier_unit \/ u = table_field_unit ->
  row_item u row = Some it -> item_id it = Str (row_identifier row).
Proof.
  intros [-> | ->]; cbn [row_item pricing_tier_unit table_field_unit];
    unfold pricing_tier_row_item, table_field_row_item;
    rewrite or_else_row_identifier;
    destruct (truthy _); intros [= <-]; reflexivity.
Qed.



End RowFacts.

(** ** Answers to requests *)

Section Answers.

Variable u : unit_spec.

Lemma lookup_map_where (P : select -> bool) (f : select -> select)
  (l : list select) (i : nat) :
  map_where P f l !! i = (fun s => if P s then f s else s) <$> l !! i.
Proof. unfold map_where. apply list_lookup_fmap. Qed.

Lemma respond_success (k : nat) (r : request) (results : list item) (w : world) :
  pending w !! k = Some r ->
  respond u k (Success results) w
  = {| pathname := pathname w;
       doc := {| selects := alter (success_select (r_selectedValue r) results)
                                  (r_select r) (selects (doc w));
                 inputs := inputs (doc w); elements := elements (doc w) |};
       console := console w;
       pending := delete k (pending w) |}.
Proof. intros H. unfold respond. now rewrite H. Qed.

Lemma respond_failure (k : nat) (r : request) (w : world) :
  pending w !! k = Some r ->
  respond u k Failure w
  = {| pathname := pathname w; doc := doc w;
       console := console w ++ [error_text u];
       pending := delete k (pending w) |}.
Proof. intros H. unfold respond. now rewrite H. Qed.

Lemma respond_nothing (k : nat) (resp : response) (w : world) :
  pending w !! k = None -> respond u k resp w = w.
Proof. intros H. unfold respond. now rewrite H. Qed.

End Answers.

(** ** The turns of the local populator *)

Section LocalTurns.

Variable u : unit_spec.

Lemma selects_when_read_at (w : world) (i : nat) (s : select) :
  selects (doc w) !! i = Some s ->
  selects_when_read u w i
  = take i (selects (doc (local u w)))
    ++ emptied (if is_dependent u s then remove_next_help s else s)
    :: drop (S i)
         (map_where (is_dependent u) remove_next_help (selects (doc w))).
Proof.
  intros Hs. unfold selects_when_read. cbn zeta.
  now rewrite lookup_map_where, Hs.
Qed.

(** After the local populator a dependent select is repopulated from the
    rows as they were read in its turn; the other selects are as they
    were. *)
Lemma local_lookup (w : world) (i : nat) (s : select) :
  selects (doc w) !! i = Some s ->
  selects (doc (local u w)) !! i
  = Some (if is_dependent u s
          then local_select u (items_read_at u w i) (remove_next_help s)
          else s).
Proof.
  intros Hs. unfold items_read_at. rewrite (selects_when_read_at w i s Hs).
  rewrite local_closed. cbn [repopulated doc selects].
  set (l := map_where (is_dependent u) remove_next_help (selects (doc w))).
  destruct (local_loop_spec u (doc w) l []) as (_ & _ & Hat).
  specialize (Hat i (if is_dependent u s then remove_next_help s else s)).
  cbn [length Nat.add] in Hat. rewrite Hat.
  - destruct (is_dependent u s) eqn:Hd.
    + change (is_dependent u (remove_next_help s)) with (is_dependent u s).
      now rewrite Hd.
    + now rewrite Hd.
  - subst l. rewrite lookup_map_where, Hs. reflexivity.
Qed.

Lemma local_select_at (w : world) (i : nat) (s : select) :
  selects (doc w) !! i = Some s -> is_dependent u s = true ->
  selects (doc (local u w)) !! i
  = Some (local_select u (items_read_at u w i) (remove_next_help s)).
Proof. intros Hs Hd. rewrite (local_lookup w i s Hs). now rewrite Hd. Qed.

Lemma local_other_at (w : world) (i : nat) (s : select) :
  selects (doc w) !! i = Some s -> is_dependent u s = false ->
  selects (doc (local u w)) !! i = Some s.
Proof. intros Hs Hd. rewrite (local_lookup w i s Hs). now rewrite Hd. Qed.

(** The local populator touches the selects only. *)
Lemma local_frame (w : world) :
  pathname (local u w) = pathname w
  /\ inputs (doc (local u w)) = inputs (doc w)
  /\ elements (doc (local u w)) = elements (doc w)
  /\ console (local u w) = console w
  /\ pending (local u w) = pending w.
Proof.
  rewrite local_closed. cbn [repopulated pathname doc inputs elements console pending].
  repeat split. apply app_nil_r.
Qed.

(** The rows read the same whenever the selects that are not dependent are
    the same, on a page where no sub-field is a dependent select. *)
Lemma rows_read_others (d : document) (ss : list select) :
  rows_apart u d ->
  length ss = length (selects d) ->
  (forall k s, selects d !! k = Some s -> is_dependent u s = false ->
               ss !! k = Some s) ->
  rows_read u (with_selects ss d) = rows_read u d.
Proof.
  intros Hap Hlen Hag. unfold rows_read.
  change (formset_rows u (with_selects ss d)) with (formset_rows u d).
  cbn [with_selects selects].
  apply map_ext_in. intros row Hrow. unfold view. f_equal.
  apply map_ext_in. intros c Hc. unfold current.
  destruct (c_select c) as [k|] eqn:Ek; [|reflexivity].
  destruct (selects d !! k) as [s|] eqn:Es.
  - now rewrite (Hag k s Es (Hap row c k s Hrow Hc Ek Es)).
  - assert (Hn : ss !! k = None).
    { apply lookup_ge_None. apply lookup_ge_None in Es. lia. }
    now rewrite Hn.
Qed.

Lemma collect_rows_others (d : document) (ss : list select) :
  rows_apart u d ->
  length ss = length (selects d) ->
  (forall k s, selects d !! k = Some s -> is_dependent u s = false ->
               ss !! k = Some s) ->
  collect_rows u (with_selects ss d) = collect_rows u d.
Proof.
  intros Hap Hlen Hag. unfold collect_rows.
  now rewrite rows_read_others.
Qed.

(** Rows without a select among their sub-fields. *)
Lemma plain_rows_apart (d : document) :
  forallb (fun row => forallb is_plain (e_controls row)) (formset_rows u d)
  = true ->
  rows_apart u d.
Proof.
  intros H row c k s Hrow Hc Hk _. exfalso.
  rewrite forallb_forall in H. specialize (H row Hrow).
  rewrite forallb_forall in H. specialize (H c Hc).
  unfold is_plain in H. rewrite Hk in H. discriminate.
Qed.

Lemma lookup_replace_middle (l1 l2 : list select) (x y s : select) (k : nat) :
  (l1 ++ x :: l2) !! k = Some s ->
  is_dependent u x = true -> is_dependent u s = false ->
  (l1 ++ y :: l2) !! k = Some s.
Proof.
  intros Hk Hx Hs. destruct (decide (k = length l1)) as [->|Hne].
  - rewrite lookup_middle in Hk. injection Hk as <-. congruence.
  - rewrite <- (alter_middle (fun _ => y) l1 l2 x).
    rewrite list_lookup_alter_ne by congruence. exact Hk.
Qed.

(** When the entries read are the same in every turn, the loop changes
    each dependent select in the same way. *)
Lemma local_loop_same_items (d : document) (l0 : list select)
  (items : list item) :
  (forall ss,
      length ss = length l0 ->
      (forall k s, l0 !! k = Some s -> is_dependent u s = false ->
                   ss !! k = Some s) ->
      collect_rows u (with_selects ss d) = items) ->
  forall l2 l1,
    length (l1 ++ l2) = length l0 ->
    (forall k s, l0 !! k = Some s -> is_dependent u s = false ->
                 (l1 ++ l2) !! k = Some s) ->
    local_loop u d l1 l2
    = l1 ++ map_where (is_dependent u) (local_select u items) l2.
Proof.
  intros Hitems. induction l2 as [|x l2 IH]; intros l1 Hlen Hag.
  - simpl. now rewrite app_nil_r.
  - cbn [local_loop].
    assert (Hlen' : forall y : select, length (l1 ++ y :: l2) = length l0).
    { intros y. rewrite <- Hlen, !length_app. reflexivity. }
    assert (Hmid : forall y : select, (l1 ++ [y]) ++ l2 = l1 ++ y :: l2)
      by (intros y; now rewrite <- app_assoc).
    destruct (is_dependent u x) eqn:Hx.
    + rewrite (Hitems (l1 ++ emptied x :: l2));
        [|apply Hlen'
         |intros k s Hk Hs; exact (lookup_replace_middle l1 l2 x _ s k
                                     (Hag k s Hk Hs) Hx Hs)].
      rewrite IH;
        [|rewrite Hmid; apply Hlen'
         |intros k s Hk Hs; rewrite Hmid;
          exact (lookup_replace_middle l1 l2 x _ s k (Hag k s Hk Hs) Hx Hs)].
      rewrite <- app_assoc. unfold map_where. simpl. now rewrite Hx.
    + rewrite IH;
        [|rewrite Hmid; apply Hlen'
         |intros k s Hk Hs; rewrite Hmid; exact (Hag k s Hk Hs)].
      rewrite <- app_assoc. unfold map_where. simpl. now rewrite Hx.
Qed.

(** The local populator in closed form on a page where no sub-field of a
    row is a dependent select: the rows read the same in every turn. *)
Lemma local_closed_apart (w : world) :
  rows_apart u (doc w) ->
  local u w
  = repopulated
      (map_where (is_dependent u)
         (fun s => local_select u (collect_rows u (doc w)) (remove_next_help s))
         (selects (doc w)))
      [] w.
Proof.
  intros Hap. rewrite local_closed. f_equal.
  set (l := map_where (is_dependent u) remove_next_help (selects (doc w))).
  assert (Hl : length l = length (selects (doc w)))
    by (subst l; unfold map_where; apply length_map).
  assert (Hd : with_selects (selects (doc w)) (doc w) = doc w)
    by (now destruct (doc w)).
  rewrite (local_loop_same_items (doc w) l (collect_rows u (doc w))).
  - simpl. subst l. now apply map_where_compose.
  - intros ss Hlen Hag. apply collect_rows_others; [exact Hap | congruence |].
    intros k s Hk Hs. apply Hag; [|exact Hs].
    subst l. rewrite lookup_map_where, Hk. simpl. now rewrite Hs.
  - reflexivity.
  - intros k s Hk Hs. exact Hk.
Qed.

(** On such a page the rows are read in every turn as they are at the
    start. *)
Lemma rows_read_at_apart (w : world) (i : nat) (s : select) :
  rows_apart u (doc w) ->
  selects (doc w) !! i = Some s -> is_dependent u s = true ->
  rows_read_at u w i = rows_read u (doc w).
Proof.
  intros Hap Hs Hdep. unfold rows_read_at.
  assert (Hi : i < length (selects (doc w)))
    by (apply lookup_lt_is_Some; eauto).
  assert (Hlen : length (selects (doc (local u w))) = length (selects (doc w))).
  { rewrite local_closed_apart by assumption. cbn [repopulated doc selects].
    unfold map_where. apply length_map. }
  assert (Hl : length (map_where (is_dependent u) remove_next_help
                         (selects (doc w))) = length (selects (doc w)))
    by (unfold map_where; apply length_map).
  apply rows_read_others; [exact Hap| |].
  - rewrite (selects_when_read_at w i s Hs).
    rewrite length_app, length_take. cbn [length]. rewrite length_drop. lia.
  - intros k sk Hk Hd. rewrite (selects_when_read_at w i s Hs).
    destruct (Nat.lt_trichotomy k i) as [Hlt | [-> | Hgt]].
    + rewrite lookup_app_l by (rewrite length_take; lia).
      rewrite lookup_take_lt by lia. now apply local_other_at.
    + rewrite Hs in Hk. injection Hk as <-. congruence.
    + rewrite lookup_app_r by (rewrite length_take; lia).
      rewrite length_take.
      replace (k - i `min` length (selects (doc (local u w))))
        with (S (k - S i)) by lia.
      rewrite lookup_cons. cbn iota. rewrite lookup_drop.
      replace (S i + (k - S i)) with k by lia.
      rewrite lookup_map_where, Hk. simpl. now rewrite Hd.
Qed.

End LocalTurns.

(** ** Claims *)

(** C1.  The claim fails on an answer whose ids are numbers.  On the change
    page of ProductVariant 42 the pricing-tier select holds tier 5 when the
    routine runs and still holds it when the answer arrives; the answer
    offers the tiers 5 and 6 with numeric ids.  The new options offer the
    value 5, but no id is strictly equal to the string the select held, so
    no option is created selected and the select falls back to the
    placeholder; and as exactly one option with value 5 is found, the select
    is not taken for cleared either.  The value is still present among the
    new options and is not retained. *)
Lemma numeric_ids_lose_the_selection :
  placeholder_first Examples.tier_select
  /\ has_selection Examples.tier_select
  /\ exists r s0 s',
       pending Examples.change_page_waiting !! 0 = Some r
       /\ r_selectedValue r = Str "5"
       /\ selects (doc Examples.change_page_waiting) !! r_select r = Some s0
       /\ val s0 = Str "5"
       /\ selects (doc (respond pricing_tier_unit 0
                          (Success Examples.numeric_results)
                          Examples.change_page_waiting)) !! r_select r = Some s'
       /\ option_values s' = [EmptyString; "5"; "6"]
       /\ val s' = Str EmptyString
       /\ count_option_value "5" s' = 1
       /\ ~ retained_or_cleared (Str "5") s'.
Proof.
  split; [|split].
  - exists Examples.placeholder, [Examples.tier5]. split; reflexivity.
  - exists 1, Examples.tier5. split; reflexivity.
  - eexists. eexists. eexists.
    split; [reflexivity|]. split; [reflexivity|].
    split; [vm_compute; reflexivity|]. split; [reflexivity|].
    split; [vm_compute; reflexivity|]. split; [reflexivity|].
    split; [reflexivity|]. split; [reflexivity|].
    intros [H _].
    assert (Hp : present (Str "5")
                   (success_select (Str "5") Examples.numeric_results
                      Examples.tier_select)).
    { exists "5". split; [reflexivity|]. vm_compute. right. now left. }
    specialize (H Hp). vm_compute in H. discriminate.
Qed.

Section Routine.

Variable u : unit_spec.

(** With a parent identifier the routine is the remote populator. *)
Lemma filter_unit_remote (w : world) :
  truthy (productVariantId w) = true ->
  filter_unit u w = remote u (productVariantId w) w.
Proof.
  intros H. unfold filter_unit. rewrite H. simpl. now rewrite andb_false_r.
Qed.

(** On the Item add page without a ProductVariant the routine only
    disables the dependent selects. *)
Lemma filter_unit_no_parent (w : world) :
  isItemAddPage w = true -> truthy (product_variant_val (doc w)) = false ->
  filter_unit u w
  = repopulated (map_where (is_dependent u) no_parent_select (selects (doc w)))
                [] w.
Proof.
  intros Hp Hv. unfold filter_unit, productVariantId. rewrite Hp, Hv. simpl.
  apply each_update.
Qed.

(** On the add page of an unsaved ProductVariant the routine is the local
    populator. *)
Lemma filter_unit_local (w : world) :
  truthy (productVariantId w) = false -> isItemAddPage w = false ->
  isProductVariantAddPage w = true ->
  filter_unit u w = local u w.
Proof.
  intros Hv Hi Ha. unfold filter_unit. now rewrite Hv, Hi, Ha.
Qed.

(** On any other page without a parent identifier the routine does
    nothing. *)
Lemma filter_unit_idle (w : world) :
  truthy (productVariantId w) = false -> isItemAddPage w = false ->
  isProductVariantAddPage w = false ->
  filter_unit u w = w.
Proof.
  intros Hv Hi Ha. unfold filter_unit. now rewrite Hv, Hi, Ha.
Qed.

Lemma requests_shape (pvid : jsval) (l : list select) :
  forall n,
    Forall (fun r => r_type r = "GET" /\ r_url r = autocomplete_url u
                     /\ r_data r = [("product_variant_id", pvid);
                                    ("q", Str EmptyString)])
           (collect_from (is_dependent u)
              (fun i s => [remote_request u pvid i s]) n l).
Proof.
  induction l as [|s l IH]; intros n; simpl; [constructor|].
  destruct (is_dependent u s); simpl; [constructor; [easy|]|]; apply IH.
Qed.

Lemma requests_count (pvid : jsval) (l : list select) :
  forall n,
    length (collect_from (is_dependent u)
              (fun i s => [remote_request u pvid i s]) n l)
    = length (indices_from (is_dependent u) n l).
Proof.
  induction l as [|s l IH]; intros n; simpl; [reflexivity|].
  destruct (is_dependent u s); simpl; now rewrite IH.
Qed.

End Routine.

(** C2.  When the remote lookup fails, the [error] callback only writes
    the diagnostic to the console: the document (option lists, selected
    values, help messages) is left as it was, the request leaves the pending
    list and no request is sent again.  Seen from the start of the run that
    sent the request, every select still has the options and the value it
    had. *)
Theorem failed_lookup_only_logs (u : unit_spec) (w : world) (k : nat)
  (r : request) :
  pending w !! k = Some r ->
  (doc (respond u k Failure w) = doc w
   /\ console (respond u k Failure w) = console w ++ [error_text u]
   /\ pending (respond u k Failure w) = delete k (pending w)
   /\ pathname (respond u k Failure w) = pathname w)
  /\ (forall w0 i s,
        w = filter_unit u w0 ->
        truthy (productVariantId w0) = true ->
        selects (doc w0) !! i = Some s ->
        exists s',
          selects (doc (respond u k Failure w)) !! i = Some s'
          /\ options s' = options s /\ val s' = val s).
Proof.
  intros Hk. rewrite (respond_failure u k r w Hk). cbn [doc console pending pathname].
  split; [easy|].
  intros w0 i s -> Hv Hs.
  rewrite filter_unit_remote, remote_closed by assumption.
  cbn [repopulated doc selects]. rewrite lookup_map_where, Hs. simpl.
  eexists. split; [reflexivity|].
  now destruct (is_dependent u s).
Qed.

Lemma failed_lookup_only_logs_witness :
  doc (respond pricing_tier_unit 0 Failure Examples.change_page_waiting)
  = doc Examples.change_page_waiting
  /\ console (respond pricing_tier_unit 0 Failure Examples.change_page_waiting)
     = ["Error fetching PricingTiers"]
  /\ pending (respond pricing_tier_unit 0 Failure Examples.change_page_waiting)
     = [].
Proof.
  destruct (failed_lookup_only_logs pricing_tier_unit
              Examples.change_page_waiting 0
              {| r_type := "GET";
                 r_url := "/admin/ecommerce/pricingtier/autocomplete/";
                 r_data := [("product_variant_id", Str "42");
                            ("q", Str EmptyString)];
                 r_select := 0; r_selectedValue := Str "5" |} eq_refl)
    as [(H1 & H2 & H3 & _) _].
  split; [exact H1|]. split; [exact H2 | exact H3].
Defined.

(** C7.  On an edit screen, that is a page that is neither the Item add
    page nor the ProductVariant add page, whose path contains
    [/ecommerce/productvariant/<digits>/change/], the context detector takes
    as parent identifier the digits of the leftmost such occurrence, and the
    routine is the remote populator for that identifier. *)
Theorem change_page_is_remote (u : unit_spec) (w : world)
  (pre ds post : string) :
  pathname w = (pre ++ productvariant_prefix ++ ds ++ change_suffix ++ post)%string ->
  all_digits ds = true -> ds <> EmptyString ->
  isItemAddPage w = false -> isProductVariantAddPage w = false ->
  exists d pre' post',
    pathname w
    = (pre' ++ productvariant_prefix ++ d ++ change_suffix ++ post')%string
    /\ all_digits d = true /\ d <> EmptyString
    /\ String.length pre' <= String.length pre
    /\ (String.length pre' = String.length pre -> d = ds)
    /\ productVariantId w = Str d
    /\ filter_unit u w = remote u (Str d) w.
Proof.
  intros Hpath Hd Hne Hi Ha.
  destruct (match_change_leftmost pre (pathname w) ds post Hpath Hd Hne)
    as (d & pre' & post' & Hm & Hp' & Hd' & Hne' & Hlen & Huniq).
  assert (Hpv : productVariantId w = Str d).
  { unfold productVariantId, isProductVariantChangePage. now rewrite Hi, Ha, Hm. }
  exists d, pre', post'. repeat split; try assumption.
  rewrite <- Hpv. apply filter_unit_remote. rewrite Hpv. simpl.
  destruct d; [congruence | reflexivity].
Qed.

Lemma change_page_is_remote_witness :
  productVariantId Examples.change_page = Str "42"
  /\ filterPricingTiers Examples.change_page
     = remote pricing_tier_unit (Str "42") Examples.change_page.
Proof.
  destruct (change_page_is_remote pricing_tier_unit Examples.change_page
              "/admin" "42" EmptyString eq_refl eq_refl
              ltac:(discriminate) eq_refl eq_refl)
    as (d & pre' & post' & _ & _ & _ & Hlen & Hd & Hpv & Hf).
  assert (E : d = "42").
  { change (productVariantId Examples.change_page) with (Str "42") in Hpv.
    now injection Hpv. }
  subst d. split; [exact Hpv | exact Hf].
Defined.

(** ** The Item add page without a ProductVariant *)

Section NoParent.

Lemma index_of_value_spec (v : string) (os : list option_el) :
  forall i, index_of_value v os = Some i ->
            exists o, os !! i = Some o /\ option_value o = v.
Proof.
  induction os as [|o os IH]; intros i; simpl; [discriminate|].
  destruct (option_value o =? v)%string eqn:E.
  - intros [= <-]. exists o. split; [reflexivity|]. now apply String.eqb_eq.
  - destruct (index_of_value v os) as [j|]; [|discriminate].
    intros [= <-]. exact (IH j eq_refl).
Qed.

Lemma cleared_set_val (s : select) : cleared (set_val EmptyString s).
Proof.
  unfold cleared, val, set_val; simpl.
  destruct (index_of_value EmptyString (options s)) as [i|] eqn:E; [|now left].
  apply index_of_value_spec in E as (o & Ho & Hv). rewrite Ho, Hv. now right.
Qed.

Lemma cleared_no_parent_select (s : select) : cleared (no_parent_select s).
Proof. exact (cleared_set_val (prop_disabled true s)). Qed.

Lemma cleared_not_truthy (s : select) : cleared s -> truthy (val s) = false.
Proof. intros [H|H]; now rewrite H. Qed.

Lemma no_parent_select_twice (s : select) :
  no_parent_select (no_parent_select s) = no_parent_select s.
Proof. reflexivity. Qed.

Lemma find_map_where (Q P : select -> bool) (f : select -> select)
  (l : list select) :
  (forall s, Q (f s) = Q s) ->
  List.find Q (map_where P f l)
  = option_map (fun s => if P s then f s else s) (List.find Q l).
Proof.
  intros Hf. unfold map_where.
  induction l as [|s l IH]; simpl; [reflexivity|].
  destruct (P s) eqn:HP; rewrite ?Hf; destruct (Q s); simpl; now rewrite ?HP.
Qed.

Lemma map_where_twice (P : select -> bool) (f : select -> select)
  (l : list select) :
  (forall s, P (f s) = P s) -> (forall s, f (f s) = f s) ->
  map_where P f (map_where P f l) = map_where P f l.
Proof.
  intros HP Hf. rewrite map_where_compose by assumption.
  unfold map_where. apply map_ext. intros s. now rewrite Hf.
Qed.

(** No ProductVariant is selected after the selects have been disabled
    either. *)
Lemma no_parent_stays (u : unit_spec) (w : world) :
  truthy (product_variant_val (doc w)) = false ->
  truthy (product_variant_val
            (doc (repopulated
                    (map_where (is_dependent u) no_parent_select
                       (selects (doc w))) [] w))) = false.
Proof.
  unfold product_variant_val, all_controls. cbn [repopulated doc selects inputs elements].
  rewrite find_map_where by reflexivity.
  destruct (List.find _ (selects (doc w))) as [s|]; simpl; [|easy].
  destruct (is_dependent u s); [|easy].
  intros _. apply cleared_not_truthy, cleared_no_parent_select.
Qed.

End NoParent.

(** C8.  On the Item add page with no ProductVariant selected, every
    dependent select ends disabled, with its value cleared and with the help
    message right after it, where it replaces a help message that stood
    there; its options are not touched.  The other selects are left alone,
    nothing is sent and nothing is logged, and running the routine again
    changes nothing, so the message stays single. *)
Theorem no_parent_disables_dependents (u : unit_spec) (w : world) :
  isItemAddPage w = true ->
  truthy (product_variant_val (doc w)) = false ->
  (forall i s,
      selects (doc w) !! i = Some s -> is_dependent u s = true ->
      exists s',
        selects (doc (filter_unit u w)) !! i = Some s'
        /\ disabled s' = true
        /\ cleared s'
        /\ following s'
           = help_p no_parent_help :: following (remove_next_help s)
        /\ options s' = options s)
  /\ (forall i s,
        selects (doc w) !! i = Some s -> is_dependent u s = false ->
        selects (doc (filter_unit u w)) !! i = Some s)
  /\ pending (filter_unit u w) = pending w
  /\ console (filter_unit u w) = console w
  /\ filter_unit u (filter_unit u w) = filter_unit u w.
Proof.
  intros Hp Hv. rewrite (filter_unit_no_parent u w Hp Hv).
  split; [|split; [|split; [|split]]].
  - intros i s Hs Hd. exists (no_parent_select s).
    cbn [repopulated doc selects]. rewrite lookup_map_where, Hs. simpl.
    rewrite Hd. repeat split. apply cleared_no_parent_select.
  - intros i s Hs Hd.
    cbn [repopulated doc selects]. rewrite lookup_map_where, Hs. simpl.
    now rewrite Hd.
  - cbn [repopulated pending]. apply app_nil_r.
  - reflexivity.
  - rewrite filter_unit_no_parent; [|exact Hp|now apply no_parent_stays].
    rewrite repopulated_twice. cbn [repopulated doc selects app].
    rewrite map_where_twice by reflexivity. reflexivity.
Qed.

Lemma no_parent_disables_dependents_witness :
  isItemAddPage Examples.item_add_page = true
  /\ truthy (product_variant_val (doc Examples.item_add_page)) = false
  /\ exists s',
       selects (doc (filterPricingTiers Examples.item_add_page)) !! 1 = Some s'
       /\ disabled s' = true /\ cleared s'
       /\ following s' = [help_p no_parent_help].
Proof.
  split; [reflexivity|]. split; [reflexivity|].
  destruct (no_parent_disables_dependents pricing_tier_unit
              Examples.item_add_page eq_refl eq_refl) as (H & _).
  destruct (H 1 Examples.tier_select eq_refl eq_refl)
    as (s' & H1 & H2 & H3 & H4 & _).
  exists s'. repeat split; assumption.
Defined.

(** ** The first option *)

Section FirstOption.

Lemma remove_options_not_first_firstn (s : select) :
  options (remove_options_not_first s) = firstn 1 (options s).
Proof.
  unfold remove_options_not_first.
  destruct (options s) as [|o [|o2 rest]] eqn:E; simpl; now rewrite ?E.
Qed.

Lemma keeps_first_no_parent : keeps_first no_parent_select.
Proof. intros s o rest H. now exists rest. Qed.

Lemma keeps_first_enable :
  keeps_first (fun s => prop_disabled false (remove_next_help s)).
Proof. intros s o rest H. now exists rest. Qed.

Lemma keeps_first_repopulate (v : jsval) (items : list item) :
  keeps_first (fun s => append_items v items (remove_options_not_first s)).
Proof.
  intros s o rest H. rewrite options_append_items.
  rewrite remove_options_not_first_firstn, H. simpl. eauto.
Qed.

Lemma keeps_first_success (v : jsval) (results : list item) :
  keeps_first (success_select v results).
Proof.
  intros s o rest H. unfold success_select.
  destruct (keeps_first_repopulate v results s o rest H) as [rest' H'].
  exists rest'. now destruct (truthy v && _).
Qed.

Lemma keeps_first_local (u : unit_spec) (items : list item) :
  keeps_first (fun s => local_select u items (remove_next_help s)).
Proof.
  intros s o rest H. unfold local_select.
  destruct (keeps_first_repopulate (val (remove_next_help s)) items
              (prop_disabled false (remove_next_help s)) o rest H)
    as [rest' H'].
  exists rest'. now destruct (length items =? 0)%nat.
Qed.

Lemma keeps_first_map_where (P : select -> bool) (f : select -> select)
  (l : list select) (i : nat) (s : select) (o : option_el)
  (rest : list option_el) :
  keeps_first f -> l !! i = Some s -> options s = o :: rest ->
  exists s' rest', map_where P f l !! i = Some s' /\ options s' = o :: rest'.
Proof.
  intros Hf Hs Ho. rewrite lookup_map_where, Hs. simpl.
  destruct (P s).
  - destruct (Hf s o rest Ho) as [rest' H']. eauto.
  - eauto.
Qed.

Lemma keeps_first_alter (f : select -> select) (j : nat)
  (l : list select) (i : nat) (s : select) (o : option_el)
  (rest : list option_el) :
  keeps_first f -> l !! i = Some s -> options s = o :: rest ->
  exists s' rest', alter f j l !! i = Some s' /\ options s' = o :: rest'.
Proof.
  intros Hf Hs Ho. destruct (decide (j = i)) as [->|Hne].
  - rewrite list_lookup_alter_eq, Hs. simpl.
    destruct (Hf s o rest Ho) as [rest' H']. eauto.
  - rewrite list_lookup_alter_ne by assumption. eauto.
Qed.

(** One step of a page keeps the first option of every select. *)
Lemma step_keeps_first (u : unit_spec) (w w' : world) :
  step u w w' ->
  forall i s o rest,
    selects (doc w) !! i = Some s -> options s = o :: rest ->
    exists s' rest', selects (doc w') !! i = Some s' /\ options s' = o :: rest'.
Proof.
  intros [w0 | w0 k resp] i s o rest Hs Ho.
  - unfold filter_unit.
    destruct (isItemAddPage w0 && negb (truthy (productVariantId w0))).
    { rewrite each_update. cbn [repopulated doc selects].
      now apply (keeps_first_map_where _ _ _ i s o rest keeps_first_no_parent). }
    destruct (truthy (productVariantId w0)).
    { rewrite remote_closed. cbn [repopulated doc selects].
      now apply (keeps_first_map_where _ _ _ i s o rest keeps_first_enable). }
    destruct (isProductVariantAddPage w0); [|eauto].
    rewrite (local_lookup u w0 i s Hs).
    destruct (is_dependent u s); [|eauto].
    destruct (keeps_first_local u (items_read_at u w0 i) s o rest Ho)
      as [rest' H'].
    eauto.
  - destruct (pending w0 !! k) as [r|] eqn:Hk.
    + destruct resp as [results|].
      * rewrite (respond_success u k r results w0 Hk). cbn [doc selects].
        now apply (keeps_first_alter _ _ _ i s o rest (keeps_first_success _ _)).
      * rewrite (respond_failure u k r w0 Hk). cbn [doc]. eauto.
    + rewrite (respond_nothing u k resp w0 Hk). eauto.
Qed.

End FirstOption.

(** C10.  A repopulation removes only the options after the first, and
    through any run of a script (calls of the routine and answers to its
    requests, in any order) every select keeps the first option it had. *)
Theorem first_option_is_preserved (u : unit_spec) (w w' : world) :
  steps u w w' ->
  (forall s, options (remove_options_not_first s) = firstn 1 (options s))
  /\ (forall i s o rest,
        selects (doc w) !! i = Some s -> options s = o :: rest ->
        exists s' rest',
          selects (doc w') !! i = Some s' /\ options s' = o :: rest').
Proof.
  intros H. split; [apply remove_options_not_first_firstn|].
  induction H as [w | w1 w2 w3 H12 _ IH]; intros i s o rest Hs Ho.
  - eauto.
  - destruct (step_keeps_first u w1 w2 H12 i s o rest Hs Ho)
      as (s2 & rest2 & Hs2 & Ho2).
    exact (IH i s2 o rest2 Hs2 Ho2).
Qed.

Lemma first_option_is_preserved_witness :
  steps pricing_tier_unit Examples.change_page
    (respond pricing_tier_unit 0 (Success Examples.string_results)
       (filterPricingTiers Examples.change_page))
  /\ exists s' rest',
       selects (doc (respond pricing_tier_unit 0
                       (Success Examples.string_results)
                       (filterPricingTiers Examples.change_page))) !! 0
       = Some s'
       /\ options s' = Examples.placeholder :: rest'.
Proof.
  assert (H : steps pricing_tier_unit Examples.change_page
                (respond pricing_tier_unit 0 (Success Examples.string_results)
                   (filterPricingTiers Examples.change_page))).
  { eapply steps_cons; [apply step_filter|].
    eapply steps_cons; [apply step_respond|]. apply steps_refl. }
  split; [exact H|].
  destruct (first_option_is_preserved _ _ _ H) as [_ Hfirst].
  exact (Hfirst 0 Examples.tier_select Examples.placeholder [Examples.tier5]
           eq_refl eq_refl).
Defined.

(** ** Drop-downs stay well formed *)

Section DropdownInvariant.

Lemma has_selection_append (o : option_el * bool) (s : select) :
  has_selection s -> has_selection (append o s).
Proof.
  intros (i & o' & Hi & Ho). unfold has_selection, append; simpl.
  destruct (snd o).
  - exists (length (options s)), (fst o). split; [reflexivity|].
    apply list_lookup_middle. reflexivity.
  - rewrite Hi. exists i, o'. split; [reflexivity|].
    now apply lookup_app_l_Some.
Qed.

Lemma has_selection_append_items (v : jsval) (items : list item) :
  forall s, has_selection s -> has_selection (append_items v items s).
Proof.
  induction items as [|it items IH]; intros s H; [exact H|].
  unfold append_items in *. simpl. apply IH. now apply has_selection_append.
Qed.

Lemma has_selection_remove (s : select) :
  has_selection s -> has_selection (remove_options_not_first s).
Proof.
  intros H. unfold remove_options_not_first.
  destruct (options s) as [|o [|o2 rest]] eqn:E; try exact H.
  now exists 0, o.
Qed.

Lemma has_selection_set_val (s : select) :
  placeholder_first s -> has_selection (set_val EmptyString s).
Proof.
  intros (o & rest & Ho & Hv). exists 0, o. unfold set_val; simpl.
  rewrite Ho. now rewrite (index_of_value_head o rest Hv).
Qed.

(** Each operation of the scripts on a select keeps a drop-down with a
    placeholder and a selected option in that state. *)
Lemma dropdown_no_parent (s : select) : dropdown s -> dropdown (no_parent_select s).
Proof.
  intros [Hp Hs]. split; [exact Hp|].
  exact (has_selection_set_val (prop_disabled true s) Hp).
Qed.

Lemma dropdown_repopulate (v : jsval) (items : list item) (s : select) :
  dropdown s -> dropdown (append_items v items (remove_options_not_first s)).
Proof.
  intros [(o & rest & Ho & Hv) Hs]. split.
  - destruct (keeps_first_repopulate v items s o rest Ho) as [rest' H'].
    now exists o, rest'.
  - now apply has_selection_append_items, has_selection_remove.
Qed.

Lemma dropdown_success (v : jsval) (results : list item) (s : select) :
  dropdown s -> dropdown (success_select v results s).
Proof.
  intros H. apply (dropdown_repopulate v results) in H. unfold success_select.
  destruct (truthy v && _); [|exact H].
  destruct H as [Hp Hs]. split; [exact Hp | now apply has_selection_set_val].
Qed.

Lemma dropdown_local (u : unit_spec) (items : list item) (s : select) :
  dropdown s -> dropdown (local_select u items (remove_next_help s)).
Proof.
  intros H. unfold local_select.
  assert (H' : dropdown (prop_disabled false (remove_next_help s))) by exact H.
  apply (dropdown_repopulate (val (remove_next_help s)) items) in H'.
  now destruct (length items =? 0)%nat.
Qed.

Lemma dropdown_map_where (P : select -> bool) (f : select -> select)
  (l : list select) (i : nat) (s : select) :
  (forall s, dropdown s -> dropdown (f s)) ->
  l !! i = Some s -> dropdown s ->
  exists s', map_where P f l !! i = Some s' /\ dropdown s'.
Proof.
  intros Hf Hs Hd. rewrite lookup_map_where, Hs. simpl.
  destruct (P s); eauto.
Qed.

(** A drop-down with a placeholder and a selected option stays one all
    along a run. *)
Lemma steps_keep_dropdowns (u : unit_spec) (w w' : world) :
  steps u w w' ->
  forall i s,
    selects (doc w) !! i = Some s -> dropdown s ->
    exists s', selects (doc w') !! i = Some s' /\ dropdown s'.
Proof.
  induction 1 as [w | w1 w2 w3 H12 _ IH]; intros i s Hs Hd; [eauto|].
  assert (H2 : exists s2, selects (doc w2) !! i = Some s2 /\ dropdown s2).
  { destruct H12 as [w0 | w0 k resp].
    - unfold filter_unit.
      destruct (isItemAddPage w0 && negb (truthy (productVariantId w0))).
      { rewrite each_update. cbn [repopulated doc selects].
        now apply (dropdown_map_where _ _ _ i s dropdown_no_parent). }
      destruct (truthy (productVariantId w0)).
      { rewrite remote_closed. cbn [repopulated doc selects].
        now apply (dropdown_map_where _
                     (fun s => prop_disabled false (remove_next_help s))
                     _ i s (fun s H => H)). }
      destruct (isProductVariantAddPage w0); [|eauto].
      rewrite (local_lookup u w0 i s Hs).
      destruct (is_dependent u s); [|eauto].
      eexists. split; [reflexivity|]. now apply dropdown_local.
    - destruct (pending w0 !! k) as [r|] eqn:Hk.
      + destruct resp as [results|].
        * rewrite (respond_success u k r results w0 Hk). cbn [doc selects].
          destruct (decide (r_select r = i)) as [->|Hne].
          -- rewrite list_lookup_alter_eq, Hs. simpl.
             eexists. split; [reflexivity|]. now apply dropdown_success.
          -- rewrite list_lookup_alter_ne by assumption. eauto.
        * rewrite (respond_failure u k r w0 Hk). cbn [doc]. eauto.
      + rewrite (respond_nothing u k resp w0 Hk). eauto. }
  destruct H2 as (s2 & Hs2 & Hd2). exact (IH i s2 Hs2 Hd2).
Qed.

End DropdownInvariant.

(** ** Options synthesized from the rows *)

Section Synthesis.





(** A row that lacks a required sub-field pushes nothing. *)
Lemma lacks_required_push_row (u : unit_spec) (row : element) :
  lacks_required u row -> push_row u [] row = [].
Proof.
  intros [[-> Hm] | [-> Hm]].
  - pose proof (pricing_tier_push_row row) as H.
    unfold pricing_tier_contribution in H.
    destruct (marked_deleted row).
    + now destruct (push_row pricing_tier_unit [] row).
    + destruct Hm as [Hm | [Hm | Hm]]; rewrite Hm in H;
        repeat (match type of H with
                | context [match ?x with _ => _ end] => destruct x
                end);
        now destruct (push_row pricing_tier_unit [] row).
  - pose proof (table_field_push_row row) as H.
    unfold table_field_contribution in H.
    destruct (marked_deleted row).
    + now destruct (push_row table_field_unit [] row).
    + destruct Hm as [Hm | Hm]; rewrite Hm in H;
        repeat (match type of H with
                | context [match ?x with _ => _ end] => destruct x
                end);
        now destruct (push_row table_field_unit [] row).
Qed.

(** The loop depends on the rest of the document through the entries read
    from the rows. *)
Lemma local_loop_ext (u : unit_spec) (d d' : document) :
  (forall ss, collect_rows u (with_selects ss d)
              = collect_rows u (with_selects ss d')) ->
  forall l2 l1, local_loop u d l1 l2 = local_loop u d' l1 l2.
Proof.
  intros H. induction l2 as [|s l2 IH]; intros l1; [reflexivity|].
  cbn [local_loop]. now rewrite IH, H.
Qed.

(** A control that is not a select reads the same whatever the selects
    are. *)
Lemma view_plain (ss : list select) (row : element) :
  forallb is_plain (e_controls row) = true -> view ss row = row.
Proof.
  intros H. destruct row as [id cs]. unfold view. cbn [e_id e_controls] in *.
  f_equal. induction cs as [|c cs IH]; [reflexivity|].
  cbn [forallb] in H. apply andb_prop in H as [Hc Hcs].
  cbn [map]. rewrite (IH Hcs). f_equal.
  unfold current. unfold is_plain in Hc. now destruct (c_select c).
Qed.

End Synthesis.



(** C4.  A row that lacks a required sub-field (tier type, range start or
    range end for pricing tiers; name or field type for table fields) is
    skipped in silence by the local populator: whenever a row is read
    without one of them it pushes nothing, and for a row of the page that
    lacks one at every reading the selects, the console and the pending
    requests come out as they would with the row absent from the page. *)
Theorem incomplete_rows_are_skipped (u : unit_spec) (w : world)
  (above below : list element) (row : element) :
  (forall r,
      (u = pricing_tier_unit
       /\ (sub_field "-tier_type" r = None
           \/ sub_field "-range_start" r = None
           \/ sub_field "-range_end" r = None))
      \/ (u = table_field_unit
          /\ (sub_field "-name" r = None \/ sub_field "-field_type" r = None)) ->
      forall acc, push_row u acc r = acc)
  /\ ((forall ss, lacks_required u (view ss row)) ->
      elements (doc w) = above ++ row :: below ->
      selects (doc (local u w))
      = selects (doc (local u (set_elements (above ++ below) w)))
      /\ console (local u w) = console w
      /\ pending (local u w) = pending w).
Proof.
  split.
  - intros r Hmiss acc.
    rewrite push_row_app, (lacks_required_push_row u r Hmiss).
    apply app_nil_r.
  - intros Hmiss Hels. split; [|split].
    + rewrite !local_closed. cbn [repopulated doc selects set_elements set_doc].
      apply local_loop_ext. intros ss.
      rewrite !collect_rows_flat_map. unfold rows_read, formset_rows.
      cbn [with_selects selects elements]. rewrite Hels.
      rewrite !List.filter_app, !map_app, !flat_map_app. f_equal.
      cbn [List.filter].
      destruct (starts_with (row_prefix u) (e_id row)); [|reflexivity].
      cbn [map flat_map]. now rewrite (lacks_required_push_row u _ (Hmiss ss)).
    + apply local_frame.
    + apply local_frame.
Qed.

Lemma incomplete_rows_are_skipped_witness :
  sub_field "-range_end" Examples.tier_row_partial = None
  /\ push_row pricing_tier_unit [] Examples.tier_row_partial = []
  /\ selects (doc (local pricing_tier_unit Examples.add_page))
     = selects (doc (local pricing_tier_unit
                       (set_elements [Examples.tier_row_saved;
                                      Examples.tier_row_new;
                                      Examples.field_row_partial]
                          Examples.add_page)))
  /\ console (local pricing_tier_unit Examples.add_page) = [].
Proof.
  split; [reflexivity|].
  destruct (incomplete_rows_are_skipped pricing_tier_unit Examples.add_page
              [Examples.tier_row_saved]
              [Examples.tier_row_new; Examples.field_row_partial]
              Examples.tier_row_partial) as (Hpush & Hrun).
  split.
  - apply Hpush. left. split; [reflexivity|]. right. right. reflexivity.
  - destruct Hrun as (H1 & H2 & _); [|reflexivity|].
    + intros ss. rewrite view_plain by reflexivity.
      left. split; [reflexivity|]. right. right. reflexivity.
    + split; [exact H1 | exact H2].
Defined.

(** C6.  The identifier of a synthesized option is the row identifier: the
    value of the hidden id input of the row when that value is not empty
    (the persisted primary key), and the id of the row element otherwise
    (the temporary identifier). *)
Theorem synthesized_identifier (u : unit_spec) (row : element) (it : item) :
  u = pricing_tier_unit \/ u = table_field_unit ->
  row_item u row = Some it ->
  item_id it = Str (row_identifier row)
  /\ o_value (option_of_item it) = Some (row_identifier row)
  /\ (forall c cs,
        find_name_suffix "-id" row = c :: cs ->
        c_value c <> EmptyString ->
        row_identifier row = c_value c)
  /\ (forall c cs,
        find_name_suffix "-id" row = c :: cs ->
        c_value c = EmptyString ->
        row_identifier row = e_id row)
  /\ (find_name_suffix "-id" row = [] -> row_identifier row = e_id row).
Proof.
  intros Hu Hit.
  pose proof (row_item_identifier u row it Hu Hit) as Hid.
  split; [exact Hid|]. split.
  { unfold option_of_item; simpl. now rewrite Hid. }
  pose proof (sub_field_spec "-id" row) as Hsub.
  unfold row_identifier.
  split; [|split].
  - intros c cs Hf Hne. rewrite Hf in Hsub. simpl in Hsub.
    destruct (sub_field "-id" row) as [pk|].
    + destruct Hsub as [H _]. now injection H.
    + apply negb_false_iff, String.eqb_eq in Hsub. contradiction.
  - intros c cs Hf He. rewrite Hf in Hsub. simpl in Hsub.
    destruct (sub_field "-id" row) as [pk|]; [|reflexivity].
    destruct Hsub as [H1 H2]. injection H1 as H1. subst pk.
    rewrite He in H2. discriminate.
  - intros Hf. rewrite Hf in Hsub. simpl in Hsub.
    destruct (sub_field "-id" row) as [pk|]; [|reflexivity].
    destruct Hsub as [H1 _]. discriminate.
Qed.

Lemma synthesized_identifier_witness :
  (exists it, row_item pricing_tier_unit Examples.tier_row_saved = Some it
              /\ item_id it = Str "5")
  /\ (exists it, row_item pricing_tier_unit Examples.tier_row_new = Some it
                 /\ item_id it = Str "pricing_tiers-1").
Proof.
  split.
  - eexists. split; [reflexivity|].
    destruct (synthesized_identifier pricing_tier_unit Examples.tier_row_saved _
                (or_introl eq_refl) eq_refl) as (H & _).
    exact H.
  - eexists. split; [reflexivity|].
    destruct (synthesized_identifier pricing_tier_unit Examples.tier_row_new _
                (or_introl eq_refl) eq_refl) as (H & _).
    exact H.
Defined.

(** ** The event binder *)

Section Binder.

Lemma In_indices_from {A : Type} (P : A -> bool) (l : list A) :
  forall n j x, l !! j = Some x -> P x = true -> In (n + j) (indices_from P n l).
Proof.
  induction l as [|y l IH]; intros n j x Hj HP; [discriminate|].
  destruct j as [|j]; simpl in *.
  - injection Hj as ->. rewrite HP, Nat.add_0_r. now left.
  - replace (n + S j) with (S n + j) by lia.
    destruct (P y); [right|]; now apply (IH (S n) j x).
Qed.

Lemma indices_from_first {A : Type} (P : A -> bool) (l : list A) :
  forall n k x,
    l !! k = Some x -> P x = true ->
    (forall j y, j < k -> l !! j = Some y -> P y = false) ->
    exists rest, indices_from P n l = (n + k) :: rest.
Proof.
  induction l as [|y l IH]; intros n k x Hk HP Hfirst; [discriminate|].
  destruct k as [|k]; simpl in *.
  - injection Hk as ->. rewrite HP, Nat.add_0_r. eauto.
  - rewrite (Hfirst 0 y) by (simpl; first [lia | reflexivity]).
    replace (n + S k) with (S n + k) by lia.
    apply (IH (S n) k x Hk HP).
    intros j z Hj Hz. apply (Hfirst (S j) z); [lia | exact Hz].
Qed.

Lemma formset_guard_spec (u : unit_spec) (name : jsval) :
  formset_guard u name = true
  <-> name = Str (formset_name u) \/ name = Str "items".
Proof.
  unfold formset_guard. rewrite orb_true_iff, !strict_eq_Str. reflexivity.
Qed.

Lemma listener_runs (u : unit_spec) (p : page) (k : nat) :
  In k (listeners p) -> 1 <= invocations u (Change k) p.
Proof.
  intros H. simpl. apply (count_occ_In Nat.eq_dec) in H. lia.
Qed.

End Binder.

(** C9 (as amended).  The routine runs when the page is ready; on a
    [formset:added] or [formset:removed] notification it runs once when the
    formset name handed to the handler is the one of the script
    ([pricing_tiers], [table_fields]) or [items], and not otherwise, in
    particular not when no name is handed over; and it runs on a change event
    of the parent-selection drop-down and of every inline sub-field. *)
Theorem routine_triggers (u : unit_spec) (w : world) :
  state (ready u w) = filter_unit u w
  /\ (forall p name,
        formset_guard u name = true ->
        invocations u (FormsetAdded name) p = 1
        /\ invocations u (FormsetRemoved name) p = 1)
  /\ (forall p name,
        formset_guard u name = false ->
        invocations u (FormsetAdded name) p = 0
        /\ invocations u (FormsetRemoved name) p = 0)
  /\ (forall name,
        formset_guard u name = true
        <-> name = Str (formset_name u) \/ name = Str "items")
  /\ formset_guard u Undefined = false
  /\ (formset_name pricing_tier_unit = "pricing_tiers"
      /\ formset_name table_field_unit = "table_fields")
  /\ (forall k t,
        targets (doc (state (ready u w))) !! k = Some t ->
        existsb (fun suf => ends_with suf (t_name t)) (field_suffixes u) = true ->
        1 <= invocations u (Change k) (ready u w))
  /\ (forall k t,
        targets (doc (state (ready u w))) !! k = Some t ->
        t_id t = "id_product_variant" ->
        (forall j t', j < k ->
                      targets (doc (state (ready u w))) !! j = Some t' ->
                      t_id t' <> "id_product_variant") ->
        1 <= invocations u (Change k) (ready u w))
  /\ (forall ev p,
        state (dispatch u ev p)
        = Nat.iter (invocations u ev p) (filter_unit u) (state p)).
Proof.
  split; [reflexivity|].
  split; [intros p name H; simpl; now rewrite H|].
  split; [intros p name H; simpl; now rewrite H|].
  split; [apply formset_guard_spec|].
  split; [reflexivity|].
  split; [split; reflexivity|].
  split; [|split; [|reflexivity]].
  - intros k t Hk Hsuf. apply listener_runs.
    cbn [ready listeners state] in *. apply in_or_app. right.
    unfold field_targets.
    exact (In_indices_from _ _ 0 k t Hk Hsuf).
  - intros k t Hk Hid Hfirst. apply listener_runs.
    cbn [ready listeners state] in *. apply in_or_app. left.
    unfold product_variant_target.
    destruct (indices_from_first
                (fun t => (t_id t =? "id_product_variant")%string)
                _ 0 k t Hk) as [rest Hrest].
    + now apply String.eqb_eq.
    + intros j t' Hj Ht'. apply String.eqb_neq. now apply (Hfirst j t').
    + rewrite Hrest. now left.
Qed.

Lemma routine_triggers_witness :
  invocations pricing_tier_unit (FormsetAdded (Str "pricing_tiers"))
    (ready pricing_tier_unit Examples.add_page) = 1
  /\ invocations pricing_tier_unit (FormsetRemoved (Str "items"))
       (ready pricing_tier_unit Examples.add_page) = 1
  /\ 1 <= invocations pricing_tier_unit (Change 3)
            (ready pricing_tier_unit Examples.add_page).
Proof.
  destruct (routine_triggers pricing_tier_unit Examples.add_page)
    as (_ & Hon & _ & _ & _ & _ & Hfield & _).
  split; [exact (proj1 (Hon _ (Str "pricing_tiers") eq_refl))|].
  split; [exact (proj2 (Hon _ (Str "items") eq_refl))|].
  exact (Hfield 3 {| t_id := "id_pricing_tiers-0-tier_type";
                     t_name := "pricing_tiers-0-tier_type" |}
           eq_refl eq_refl).
Defined.

(** C9 (as stated) fails for the notifications of another formset, and for
    a notification that hands no formset name to the handler: a row added to
    the table-field formset does not run [filterPricingTiers], nor does a
    [formset:added] event whose handler gets [undefined] for the name. *)
Lemma other_formset_is_ignored :
  invocations pricing_tier_unit (FormsetAdded (Str "table_fields"))
    (ready pricing_tier_unit Examples.add_page) = 0
  /\ invocations pricing_tier_unit (FormsetRemoved (Str "table_fields"))
       (ready pricing_tier_unit Examples.add_page) = 0
  /\ dispatch pricing_tier_unit (FormsetAdded (Str "table_fields"))
       (ready pricing_tier_unit Examples.add_page)
     = ready pricing_tier_unit Examples.add_page
  /\ invocations pricing_tier_unit (FormsetAdded Undefined)
       (ready pricing_tier_unit Examples.add_page) = 0
  /\ invocations pricing_tier_unit (FormsetRemoved Undefined)
       (ready pricing_tier_unit Examples.add_page) = 0.
Proof. repeat split. Qed.

(** ** Further properties: the path tests *)

Section PathFacts.

Local Notation "a +++ b" := (String.append a b)
  (at level 60, right associativity).

Lemma string_app_assoc (a b c : string) : (a +++ b) +++ c = a +++ b +++ c.
Proof. induction a as [|x a IH]; simpl; [reflexivity | now rewrite IH]. Qed.

Variable lit : string.

Lemma match_lit_here_complete (ds post : string) :
  all_digits ds = true -> ds <> EmptyString ->
  Legacy.match_lit_here lit (lit +++ ds +++ change_suffix +++ post) = Some ds.
Proof.
  intros Hd Hne. unfold Legacy.match_lit_here.
  rewrite strip_prefix_app.
  rewrite (span_digits_app ds _ Hd (no_leading_digit_change post)).
  destruct ds; [congruence|]. now rewrite starts_with_app.
Qed.

Lemma match_lit_here_sound (s d : string) :
  Legacy.match_lit_here lit s = Some d ->
  all_digits d = true /\ d <> EmptyString
  /\ exists post, s = lit +++ d +++ change_suffix +++ post.
Proof.
  unfold Legacy.match_lit_here.
  destruct (strip_prefix lit s) as [r|] eqn:E; [|discriminate].
  apply strip_prefix_inv in E.
  destruct (span_digits_spec r) as (H1 & H2 & _).
  destruct (span_digits r) as [ds rest]; simpl in *.
  destruct ds as [|c ds]; [discriminate|].
  destruct (starts_with change_suffix rest) eqn:Es; [|discriminate].
  intros [= <-]. apply starts_with_inv in Es as [post ->].
  repeat split; [assumption | discriminate |].
  exists post. now rewrite E, H1.
Qed.

Lemma match_lit_sound (s : string) :
  forall d, Legacy.match_lit lit s = Some d ->
  all_digits d = true /\ d <> EmptyString
  /\ exists pre post, s = pre +++ lit +++ d +++ change_suffix +++ post.
Proof.
  induction s as [|c s IH]; intros d; cbn [Legacy.match_lit].
  - destruct (Legacy.match_lit_here lit EmptyString) eqn:E; [|discriminate].
    intros [= ->]. apply match_lit_here_sound in E as (H1 & H2 & post & H3).
    repeat split; try assumption. now exists EmptyString, post.
  - destruct (Legacy.match_lit_here lit (String c s)) eqn:E.
    + intros [= ->]. apply match_lit_here_sound in E as (H1 & H2 & post & H3).
      repeat split; try assumption. now exists EmptyString, post.
    + intros H. apply IH in H as (H1 & H2 & pre & post & ->).
      repeat split; try assumption. now exists (String c pre), post.
Qed.

Lemma match_lit_complete (pre : string) :
  forall s ds post,
    s = pre +++ lit +++ ds +++ change_suffix +++ post ->
    all_digits ds = true -> ds <> EmptyString ->
    exists d, Legacy.match_lit lit s = Some d.
Proof.
  induction pre as [|c pre IH]; intros s ds post Hs Hd Hne.
  - cbn [String.append] in Hs.
    pose proof (match_lit_here_complete ds post Hd Hne) as Hm.
    rewrite <- Hs in Hm. exists ds.
    destruct s; cbn [Legacy.match_lit]; now rewrite Hm.
  - cbn [String.append] in Hs. subst s. cbn [Legacy.match_lit].
    destruct (Legacy.match_lit_here lit (String c _)) as [d|]; [eauto|].
    exact (IH _ ds post eq_refl Hd Hne).
Qed.

Lemma match_lit_None (s : string) :
  Legacy.match_lit lit s = None <-> ~ has_change_pattern lit s.
Proof.
  split.
  - intros Hn (pre & ds & post & Hs & Hd & Hne).
    destruct (match_lit_complete pre s ds post Hs Hd Hne) as [d Hd'].
    congruence.
  - intros Hn. destruct (Legacy.match_lit lit s) as [d|] eqn:E; [|reflexivity].
    exfalso. apply Hn.
    apply match_lit_sound in E as (H1 & H2 & pre & post & H3).
    now exists pre, d, post.
Qed.

End PathFacts.

Lemma match_change_match_lit (s : string) :
  match_change s = Legacy.match_lit productvariant_prefix s.
Proof.
  induction s as [|c s IH]; cbn [match_change Legacy.match_lit].
  - reflexivity.
  - change (match_here (String c s))
      with (Legacy.match_lit_here productvariant_prefix (String c s)).
    now rewrite IH.
Qed.

(** X1.  The expression of either copy matches a path exactly when the
    path contains its literal, a non-empty run of digits and [/change/];
    the captured identifier is then such a run of digits of the path. *)
Theorem change_pattern_is_recognised (path : string) :
  (match_change path = None
   <-> ~ has_change_pattern productvariant_prefix path)
  /\ (Legacy.match_lit Legacy.productvariant_lit path = None
      <-> ~ has_change_pattern Legacy.productvariant_lit path)
  /\ (forall d,
        match_change path = Some d
        \/ Legacy.match_lit Legacy.productvariant_lit path = Some d ->
        all_digits d = true /\ d <> EmptyString
        /\ includes path (d ++ change_suffix)%string = true).
Proof.
  split; [rewrite match_change_match_lit; apply match_lit_None|].
  split; [apply match_lit_None|].
  intros d H.
  assert (Hs : exists lit pre post,
             all_digits d = true /\ d <> EmptyString
             /\ path = (pre ++ lit ++ d ++ change_suffix ++ post)%string).
  { destruct H as [H|H].
    - rewrite match_change_match_lit in H.
      apply match_lit_sound in H as (H1 & H2 & pre & post & H3).
      now exists productvariant_prefix, pre, post.
    - apply match_lit_sound in H as (H1 & H2 & pre & post & H3).
      now exists Legacy.productvariant_lit, pre, post. }
  destruct Hs as (lit & pre & post & H1 & H2 & ->).
  repeat split; try assumption.
  rewrite <- (string_app_assoc d change_suffix post).
  rewrite <- (string_app_assoc pre lit).
  apply includes_app.
Qed.

(** X5.  On a page whose path is that of no add page and contains no
    change pattern, the routine of each script, and of the shorter copy,
    leaves the page as it is: no select changes, nothing is sent. *)
Theorem other_pages_are_left_alone (u : unit_spec) (w : world) :
  (isItemAddPage w = false -> isProductVariantAddPage w = false ->
   ~ has_change_pattern productvariant_prefix (pathname w) ->
   filter_unit u w = w)
  /\ (Legacy.isAddPage w = false ->
      ~ has_change_pattern Legacy.productvariant_lit (pathname w) ->
      Legacy.filterPricingTiers w = w).
Proof.
  split.
  - intros Hi Ha Hn. apply filter_unit_idle; try assumption.
    unfold productVariantId, isProductVariantChangePage. rewrite Hi, Ha.
    apply (match_lit_None productvariant_prefix) in Hn.
    rewrite match_change_match_lit. now rewrite Hn.
  - intros Ha Hn. unfold Legacy.filterPricingTiers, Legacy.productVariantId,
      Legacy.isChangePage.
    rewrite Ha. apply (match_lit_None Legacy.productvariant_lit) in Hn.
    now rewrite Hn.
Qed.

(** ** Further properties: what the routine does to the selects *)

(** X2.  With a parent identifier the routine, before any answer arrives,
    enables every dependent select and removes a help message that stands
    right after it; the options and the selected option stay.  The other
    selects are not touched and nothing is logged. *)
Theorem remote_run_enables_selects (u : unit_spec) (w : world) :
  truthy (productVariantId w) = true ->
  (forall i s,
      selects (doc w) !! i = Some s -> is_dependent u s = true ->
      exists s',
        selects (doc (filter_unit u w)) !! i = Some s'
        /\ disabled s' = false
        /\ following s' = following (remove_next_help s)
        /\ options s' = options s
        /\ selectedIndex s' = selectedIndex s)
  /\ (forall i s,
        selects (doc w) !! i = Some s -> is_dependent u s = false ->
        selects (doc (filter_unit u w)) !! i = Some s)
  /\ console (filter_unit u w) = console w.
Proof.
  intros Hv. rewrite filter_unit_remote, remote_closed by assumption.
  cbn [repopulated doc selects console]. repeat split.
  - intros i s Hs Hd. rewrite lookup_map_where, Hs. simpl. rewrite Hd.
    eexists. split; [reflexivity|]. repeat split.
  - intros i s Hs Hd. rewrite lookup_map_where, Hs. simpl. now rewrite Hd.
Qed.

(** X3.  Where the parent identifier comes from on the add pages.  On the
    ProductVariant add page it is the value of the first input named [id]
    when that value is not empty, and the routine is then the remote
    populator; with no such input, or an empty value, the routine is the
    local populator.  On the Item add page with a ProductVariant chosen the
    routine is the remote populator for the chosen value. *)
Theorem parent_identifier_on_add_pages (u : unit_spec) (w : world) :
  (isItemAddPage w = false -> isProductVariantAddPage w = true ->
   forall c cs,
     hiddenIdInput (doc w) = c :: cs -> c_value c <> EmptyString ->
     filter_unit u w = remote u (Str (c_value c)) w)
  /\ (isItemAddPage w = false -> isProductVariantAddPage w = true ->
      hiddenIdInput (doc w) = []
      \/ (exists c cs, hiddenIdInput (doc w) = c :: cs
                       /\ c_value c = EmptyString) ->
      filter_unit u w = local u w)
  /\ (isItemAddPage w = true ->
      truthy (product_variant_val (doc w)) = true ->
      filter_unit u w = remote u (product_variant_val (doc w)) w).
Proof.
  split; [|split].
  - intros Hi Ha c cs Hh Hne.
    assert (Hpv : productVariantId w = Str (c_value c)).
    { unfold productVariantId. rewrite Hi, Ha, Hh. simpl.
      apply String.eqb_neq in Hne. now rewrite Hne. }
    rewrite <- Hpv. apply filter_unit_remote. rewrite Hpv. simpl.
    apply String.eqb_neq in Hne. now rewrite Hne.
  - intros Hi Ha Hh. apply filter_unit_local; try assumption.
    unfold productVariantId. rewrite Hi, Ha.
    destruct Hh as [Hh | (c & cs & Hh & He)]; rewrite Hh; simpl; [reflexivity|].
    now rewrite He.
  - intros Hi Hv.
    assert (Hpv : productVariantId w = product_variant_val (doc w)).
    { unfold productVariantId. now rewrite Hi. }
    rewrite <- Hpv. apply filter_unit_remote. now rewrite Hpv.
Qed.

Section LocalEdge.

Variable u : unit_spec.

Lemma remove_options_not_first_frame (s : select) :
  s_id (remove_options_not_first s) = s_id s
  /\ s_name (remove_options_not_first s) = s_name s
  /\ disabled (remove_options_not_first s) = disabled s
  /\ following (remove_options_not_first s) = following s.
Proof.
  unfold remove_options_not_first.
  now destruct (options s) as [|o [|o2 rest]].
Qed.

Lemma local_select_empty (s : select) :
  disabled (local_select u [] s) = true
  /\ following (local_select u [] s) = help_p (empty_help u) :: following s
  /\ options (local_select u [] s) = firstn 1 (options s).
Proof.
  unfold local_select. simpl.
  destruct (remove_options_not_first_frame (prop_disabled false s))
    as (_ & _ & _ & Hf).
  rewrite Hf. repeat split.
  apply (remove_options_not_first_firstn (prop_disabled false s)).
Qed.

Lemma local_select_nonempty (items : list item) (s : select) :
  items <> [] ->
  disabled (local_select u items s) = false
  /\ following (local_select u items s) = following s.
Proof.
  intros Hne. unfold local_select.
  destruct items as [|it items]; [congruence|]. cbn [length Nat.eqb].
  destruct (append_items_frame (val s) (it :: items)
              (remove_options_not_first (prop_disabled false s)))
    as (_ & _ & Hd & Hf).
  destruct (remove_options_not_first_frame (prop_disabled false s))
    as (_ & _ & Hd' & Hf').
  rewrite Hd, Hf, Hd', Hf'. now split.
Qed.

End LocalEdge.

(** X4.  The local populator with nothing to offer.  When the rows, as
    they are read in the turn of a dependent select, yield no entry (in
    particular when the page has no row of the formset) that select is left
    disabled, reduced to its first option, with the help message of the
    script right after it; when a row yields an entry the select is enabled
    and no message is added.  On a page where no sub-field of a row is a
    dependent select the entries are those the rows yield when the
    populator starts. *)
Theorem local_populator_without_entries (u : unit_spec) (w : world) (i : nat)
  (s : select) :
  selects (doc w) !! i = Some s -> is_dependent u s = true ->
  (formset_rows u (doc w) = [] -> items_read_at u w i = [])
  /\ (rows_apart u (doc w) -> items_read_at u w i = collect_rows u (doc w))
  /\ exists s',
       selects (doc (local u w)) !! i = Some s'
       /\ (items_read_at u w i = [] ->
           disabled s' = true
           /\ following s'
              = help_p (empty_help u) :: following (remove_next_help s)
           /\ options s' = firstn 1 (options s))
       /\ (items_read_at u w i <> [] ->
           disabled s' = false
           /\ following s' = following (remove_next_help s)).
Proof.
  intros Hs Hd. split; [|split].
  - intros Hr. unfold items_read_at, collect_rows, rows_read.
    change (formset_rows u (with_selects (selects_when_read u w i) (doc w)))
      with (formset_rows u (doc w)).
    now rewrite Hr.
  - intros Hap. unfold items_read_at, collect_rows.
    change (rows_read u (with_selects (selects_when_read u w i) (doc w)))
      with (rows_read_at u w i).
    now rewrite (rows_read_at_apart u w i s Hap Hs Hd).
  - eexists. split; [exact (local_select_at u w i s Hs Hd)|]. split.
    + intros He. rewrite He. exact (local_select_empty u (remove_next_help s)).
    + intros Hne. exact (local_select_nonempty u _ (remove_next_help s) Hne).
Qed.

(** X11.  From disabled to enabled.  After the routine has disabled a
    dependent select on the Item add page, a run with a ProductVariant
    chosen enables it again and removes the help message the earlier run
    attached: the select is followed by what followed it before, and its
    options are those it had. *)
Theorem choosing_a_variant_enables (u : unit_spec) (w w' : world) (i : nat)
  (s : select) :
  isItemAddPage w = true ->
  truthy (product_variant_val (doc w)) = false ->
  selects (doc w) !! i = Some s -> is_dependent u s = true ->
  selects (doc w') !! i = selects (doc (filter_unit u w)) !! i ->
  truthy (productVariantId w') = true ->
  exists s2,
    selects (doc (filter_unit u w')) !! i = Some s2
    /\ disabled s2 = false
    /\ following s2 = following (remove_next_help s)
    /\ options s2 = options s.
Proof.
  intros Hp Hv Hs Hd Hsame Hv'.
  rewrite (filter_unit_no_parent u w Hp Hv) in Hsame.
  cbn [repopulated doc selects] in Hsame.
  rewrite lookup_map_where, Hs in Hsame. simpl in Hsame. rewrite Hd in Hsame.
  rewrite filter_unit_remote, remote_closed by assumption.
  cbn [repopulated doc selects]. rewrite lookup_map_where, Hsame. simpl.
  change (is_dependent u (no_parent_select s)) with (is_dependent u s).
  rewrite Hd. eexists. split; [reflexivity|]. repeat split.
Qed.

(** ** Further properties: answers *)

Section AnswerFacts.

Lemma select_ext (s t : select) :
  s_id s = s_id t -> s_name s = s_name t -> disabled s = disabled t ->
  options s = options t -> selectedIndex s = selectedIndex t ->
  following s = following t -> s = t.
Proof. destruct s, t; simpl; intros; subst; reflexivity. Qed.

Lemma options_success_select (v : jsval) (results : list item) (s : select) :
  options (success_select v results s)
  = firstn 1 (options s) ++ map result_option results.
Proof.
  unfold success_select.
  assert (H : options (append_items v results (remove_options_not_first s))
              = firstn 1 (options s) ++ map result_option results).
  { rewrite options_append_items. now rewrite remove_options_not_first_firstn. }
  now destruct (truthy v && _).
Qed.

Lemma success_select_frame (v : jsval) (results : list item) (s : select) :
  s_id (success_select v results s) = s_id s
  /\ s_name (success_select v results s) = s_name s
  /\ disabled (success_select v results s) = disabled s
  /\ following (success_select v results s) = following s.
Proof.
  unfold success_select.
  destruct (append_items_frame v results (remove_options_not_first s))
    as (H1 & H2 & H3 & H4).
  destruct (remove_options_not_first_frame s) as (G1 & G2 & G3 & G4).
  destruct (truthy v && _); simpl; rewrite H1, H2, H3, H4; now repeat split.
Qed.

Lemma remove_options_not_first_selected (s : select) (o : option_el)
  (rest : list option_el) :
  options s = o :: rest -> has_selection s ->
  remove_options_not_first s
  = {| s_id := s_id s; s_name := s_name s; disabled := disabled s;
       options := [o]; selectedIndex := Some 0; following := following s |}.
Proof.
  intros Ho Hs.
  destruct (remove_options_not_first_dropdown s o rest Ho Hs) as [H1 H2].
  destruct (remove_options_not_first_frame s) as (G1 & G2 & G3 & G4).
  now apply select_ext.
Qed.

Lemma remove_options_not_first_twice (s : select) :
  remove_options_not_first (remove_options_not_first s)
  = remove_options_not_first s.
Proof.
  unfold remove_options_not_first at 2.
  destruct (options s) as [|o [|o2 rest]] eqn:E;
    unfold remove_options_not_first; simpl; now rewrite ?E.
Qed.

(** The [success] callback gives the same select again when it runs a
    second time for the same recorded value and the same results. *)
Lemma success_select_twice (v : jsval) (results : list item) (s : select)
  (o : option_el) (rest : list option_el) :
  options s = o :: rest -> has_selection s ->
  success_select v results (success_select v results s)
  = success_select v results s.
Proof.
  intros Ho Hs.
  pose proof (remove_options_not_first_selected s o rest Ho Hs) as Hr.
  destruct results as [|it results].
  - assert (Hnil : forall s', options s' = [o] ->
                     success_select v [] s'
                     = if truthy v
                          && (count_option_value (to_string v) s' =? 0)%nat
                       then set_val EmptyString s' else s').
    { intros s' Ho'. unfold success_select, remove_options_not_first.
      rewrite Ho'. reflexivity. }
    assert (Hfirst : success_select v [] s
                     = success_select v [] (remove_options_not_first s)).
    { unfold success_select. now rewrite remove_options_not_first_twice. }
    rewrite Hfirst, Hr.
    set (s1 := {| s_id := s_id s; options := [o] |}).
    rewrite (Hnil s1 eq_refl).
    destruct (truthy v && (count_option_value (to_string v) s1 =? 0)%nat) eqn:E.
    + rewrite (Hnil (set_val EmptyString s1) eq_refl).
      change (count_option_value (to_string v) (set_val EmptyString s1))
        with (count_option_value (to_string v) s1).
      rewrite E. reflexivity.
    + rewrite (Hnil s1 eq_refl). now rewrite E.
  - set (t := success_select v (it :: results) s).
    assert (Ht : remove_options_not_first t = remove_options_not_first s).
    { rewrite Hr. destruct (success_select_frame v (it :: results) s)
        as (H1 & H2 & H3 & H4).
      pose proof (options_success_select v (it :: results) s) as Hopt.
      rewrite Ho in Hopt. cbn [firstn app map] in Hopt. fold t in Hopt, H1, H2, H3, H4.
      unfold remove_options_not_first. rewrite Hopt.
      now rewrite H1, H2, H3, H4. }
    unfold success_select at 1. rewrite Ht. reflexivity.
Qed.

Lemma val_cases (s : select) : val s = Null \/ exists x, val s = Str x.
Proof.
  unfold val. destruct (selectedIndex s) as [i|]; [|now left].
  destruct (options s !! i); [right; eauto | now left].
Qed.

Lemma decimal_not_empty (n : Z) : to_string (Num n) <> EmptyString.
Proof.
  simpl. destruct (Z.to_int n) as [d|d]; simpl; [|discriminate].
  destruct d; simpl; discriminate.
Qed.

Lemma index_of_value_numeric (results : list item) :
  numeric_ids results ->
  index_of_value EmptyString (map result_option results) = None.
Proof.
  induction 1 as [|it results [n Hn] _ IH]; simpl; [reflexivity|].
  unfold result_option at 1, new_Option, option_value. simpl. rewrite Hn.
  destruct (String.eqb_spec (to_string (Num n)) EmptyString) as [E|_].
  - now apply decimal_not_empty in E.
  - now rewrite IH.
Qed.

End AnswerFacts.

(** C5.  With a parent identifier the routine sends, for every dependent
    select, one [GET] request to the autocomplete address of its script,
    with exactly the parameters [product_variant_id], the parent identifier,
    and [q], the empty string.  The answer it consumes is the list
    [results] of entries [{id, text}]: when the answer to one of these
    requests arrives, the request leaves the pending list and the select it
    was sent for holds its first option followed by one option per entry,
    in the order of the entries, each with the text of the entry and its id
    as value. *)
Theorem remote_populator_requests (u : unit_spec) (w : world) :
  truthy (productVariantId w) = true ->
  pending (filter_unit u w)
  = pending w ++ requests_from u (productVariantId w) (selects (doc w))
  /\ Forall (fun r => r_type r = "GET"
                      /\ r_url r = autocomplete_url u
                      /\ r_data r = [("product_variant_id", productVariantId w);
                                     ("q", Str EmptyString)])
            (requests_from u (productVariantId w) (selects (doc w)))
  /\ length (requests_from u (productVariantId w) (selects (doc w)))
     = length (matched u w)
  /\ autocomplete_url pricing_tier_unit
     = "/admin/ecommerce/pricingtier/autocomplete/"
  /\ autocomplete_url table_field_unit
     = "/admin/ecommerce/tablefield/autocomplete/"
  /\ (forall it,
        o_text (result_option it) = item_text it
        /\ (item_id it <> Undefined ->
            o_value (result_option it) = Some (to_string (item_id it))))
  /\ (forall k r results s,
        pending (filter_unit u w) !! k = Some r ->
        selects (doc (filter_unit u w)) !! r_select r = Some s ->
        pending (respond u k (Success results) (filter_unit u w))
        = delete k (pending (filter_unit u w))
        /\ exists s',
             selects (doc (respond u k (Success results) (filter_unit u w)))
               !! r_select r = Some s'
             /\ options s'
                = firstn 1 (options s) ++ map result_option results).
Proof.
  intros Hv. split; [|split; [|split; [|split; [|split; [|split]]]]].
  - rewrite filter_unit_remote, remote_closed by assumption. reflexivity.
  - apply requests_shape.
  - apply requests_count.
  - reflexivity.
  - reflexivity.
  - intros it. split; [reflexivity|].
    unfold result_option, new_Option. cbn [fst o_value].
    now destruct (item_id it).
  - intros k r results s Hk Hs.
    rewrite (respond_success u k r results _ Hk). cbn [pending doc selects].
    split; [reflexivity|].
    rewrite list_lookup_alter_eq, Hs. eexists. split; [reflexivity|].
    apply options_success_select.
Qed.

Lemma remote_populator_requests_witness :
  truthy (productVariantId Examples.change_page) = true
  /\ pending (filterPricingTiers Examples.change_page)
     = [{| r_type := "GET";
           r_url := "/admin/ecommerce/pricingtier/autocomplete/";
           r_data := [("product_variant_id", Str "42");
                      ("q", Str EmptyString)];
           r_select := 0; r_selectedValue := Str "5" |}]
  /\ pending (respond pricing_tier_unit 0 (Success Examples.string_results)
                (filterPricingTiers Examples.change_page)) = []
  /\ exists s',
       selects (doc (respond pricing_tier_unit 0
                       (Success Examples.string_results)
                       (filterPricingTiers Examples.change_page))) !! 0
       = Some s'
       /\ options s'
          = [Examples.placeholder;
             {| o_value := Some "5"; o_text := "Pack (1-10)" |};
             {| o_value := Some "6"; o_text := "Pallet (11-20)" |}].
Proof.
  split; [reflexivity|].
  destruct (remote_populator_requests pricing_tier_unit Examples.change_page
              eq_refl) as (H & _ & _ & _ & _ & _ & Hans).
  split; [exact H|].
  destruct (Hans 0 {| r_type := "GET";
                      r_url := "/admin/ecommerce/pricingtier/autocomplete/";
                      r_data := [("product_variant_id", Str "42");
                                 ("q", Str EmptyString)];
                      r_select := 0; r_selectedValue := Str "5" |}
              Examples.string_results Examples.tier_select eq_refl eq_refl)
    as (Hp & s' & H1 & H2).
  split; [exact Hp|]. exists s'. split; [exact H1 | exact H2].
Defined.

(** X9.  When an answer arrives, the select of the request holds its first
    option followed by one option per result, in the order of the results
    (none for an empty answer), and no other select changes.  On a select
    that has a first option a later answer replaces the options of an
    earlier one. *)
Theorem answer_replaces_options (u : unit_spec) (w : world) (k : nat)
  (r : request) (results : list item) (s : select) :
  pending w !! k = Some r ->
  selects (doc w) !! r_select r = Some s ->
  (exists s',
     selects (doc (respond u k (Success results) w)) !! r_select r = Some s'
     /\ options s' = firstn 1 (options s) ++ map result_option results)
  /\ (forall j, j <> r_select r ->
                selects (doc (respond u k (Success results) w)) !! j
                = selects (doc w) !! j)
  /\ (forall v1 v2 results1 results2 o rest,
        options s = o :: rest ->
        options (success_select v2 results2 (success_select v1 results1 s))
        = options (success_select v2 results2 s)).
Proof.
  intros Hk Hs. rewrite (respond_success u k r results w Hk). cbn [doc selects].
  split; [|split].
  - rewrite list_lookup_alter_eq, Hs. simpl. eexists. split; [reflexivity|].
    apply options_success_select.
  - intros j Hj. now rewrite list_lookup_alter_ne.
  - intros v1 v2 r1 r2 o rest Ho.
    rewrite !options_success_select. now rewrite Ho.
Qed.

(** X10.  On a select that has a selected option (and so a first option),
    an answer whose ids are all numbers never selects one of its results:
    the value recorded for the request is a string or [null], no id is
    strictly equal to it, and the select of the request ends on its first
    option or with no selected option. *)
Theorem numeric_answer_selects_no_result (u : unit_spec) (w : world) (k : nat)
  (r : request) (results : list item) (s s0 : select) :
  pending w !! k = Some r ->
  r_selectedValue r = val s0 ->
  selects (doc w) !! r_select r = Some s ->
  has_selection s ->
  numeric_ids results ->
  exists s',
    selects (doc (respond u k (Success results) w)) !! r_select r = Some s'
    /\ (selectedIndex s' = Some 0 \/ selectedIndex s' = None).
Proof.
  intros Hk Hv Hs Hsel Hnum.
  rewrite (respond_success u k r results w Hk). cbn [doc selects].
  rewrite list_lookup_alter_eq, Hs. simpl. eexists. split; [reflexivity|].
  assert (Ho : exists o rest, options s = o :: rest).
  { destruct Hsel as (i & o & _ & Hl). destruct (options s) as [|o' rest]; [discriminate|eauto]. }
  destruct Ho as (o & rest & Ho).
  destruct (remove_options_not_first_dropdown s o rest Ho Hsel) as [Ho1 Hi1].
  assert (Hno : Forall (fun it => strict_eq (item_id it) (r_selectedValue r) = false)
                       results).
  { unfold numeric_ids in Hnum. rewrite List.Forall_forall in *.
    intros it Hin. destruct (Hnum it Hin) as [n Hn]. rewrite Hn, Hv.
    destruct (val_cases s0) as [E | [x E]]; now rewrite E. }
  unfold success_select.
  pose proof (selectedIndex_append_no_match _ _ Hno (remove_options_not_first s))
    as Hi2. rewrite Hi1 in Hi2.
  destruct (truthy (r_selectedValue r) && _); [|now left].
  unfold set_val; cbn [selectedIndex].
  rewrite options_append_items, Ho1. cbn [app index_of_value].
  destruct (option_value o =? EmptyString)%string; [now left|].
  change (map _ results) with (map result_option results).
  rewrite index_of_value_numeric by assumption. now right.
Qed.

(** X12.  A duplicate answer changes nothing: when the [success] callback
    has run for a recorded value and a list of results, running it again
    for the same value and results leaves the select as it is. *)
Theorem duplicate_answer_changes_nothing (v : jsval) (results : list item)
  (s : select) :
  has_selection s ->
  success_select v results (success_select v results s)
  = success_select v results s.
Proof.
  intros Hs.
  assert (Ho : exists o rest, options s = o :: rest).
  { destruct Hs as (i & o & _ & Hl).
    destruct (options s) as [|o' rest]; [discriminate|eauto]. }
  destruct Ho as (o & rest & Ho).
  exact (success_select_twice v results s o rest Ho Hs).
Qed.

(** X14.  An answer overrides a choice made while the request was pending:
    on a select with more than one option the [success] callback gives the
    same result whichever option is selected when it runs. *)
Theorem answer_overrides_later_choice (v : jsval) (results : list item)
  (s1 s2 : select) (o o2 : option_el) (rest : list option_el) :
  same_but_selection s1 s2 ->
  options s1 = o :: o2 :: rest ->
  success_select v results s1 = success_select v results s2.
Proof.
  intros (H1 & H2 & H3 & H4 & H5) Ho.
  assert (Hr : remove_options_not_first s1 = remove_options_not_first s2).
  { unfold remove_options_not_first. rewrite <- H4, Ho.
    now rewrite H1, H2, H3, H5. }
  unfold success_select. now rewrite Hr.
Qed.

(** ** Further properties: runs *)

Section RunFacts.

Variable u : unit_spec.

Lemma local_select_frame (items : list item) (s : select) :
  s_id (local_select u items s) = s_id s
  /\ s_name (local_select u items s) = s_name s.
Proof.
  unfold local_select.
  destruct (append_items_frame (val s) items
              (remove_options_not_first (prop_disabled false s)))
    as (H1 & H2 & _).
  destruct (remove_options_not_first_frame (prop_disabled false s))
    as (G1 & G2 & _).
  destruct (length items =? 0)%nat; simpl; rewrite H1, H2, G1, G2; now split.
Qed.

(** Requests sent by a loop aim at selects that satisfy its test. *)
Lemma collect_from_targets (P : select -> bool) (pvid : jsval)
  (l : list select) :
  forall n,
    Forall (fun r => n <= r_select r
                     /\ exists s, l !! (r_select r - n) = Some s /\ P s = true)
           (collect_from P (fun i s => [remote_request u pvid i s]) n l).
Proof.
  induction l as [|s l IH]; intros n; simpl; [constructor|].
  assert (Htail : Forall
            (fun r => n <= r_select r
                      /\ exists s0, (s :: l) !! (r_select r - n) = Some s0
                                    /\ P s0 = true)
            (collect_from P (fun i s => [remote_request u pvid i s]) (S n) l)).
  { eapply List.Forall_impl; [|apply (IH (S n))].
    intros r (Hle & s0 & Hl & HP). split; [lia|]. exists s0. split; [|exact HP].
    replace (r_select r - n) with (S (r_select r - S n)) by lia. exact Hl. }
  destruct (P s) eqn:HP; simpl; [|exact Htail].
  constructor; [|exact Htail]. simpl. split; [lia|].
  exists s. rewrite Nat.sub_diag. now split.
Qed.

(** A loop over the dependent selects keeps the requests aimed at
    dependent selects and leaves the other selects alone. *)
Lemma repopulated_targets (f : select -> select) (reqs : list request)
  (w : world) :
  (forall s, s_id (f s) = s_id s) ->
  requests_target_dependents u w ->
  Forall (fun r => exists s, selects (doc w) !! r_select r = Some s
                             /\ is_dependent u s = true) reqs ->
  requests_target_dependents u
    (repopulated (map_where (is_dependent u) f (selects (doc w))) reqs w).
Proof.
  intros Hf Hinv Hreqs. unfold requests_target_dependents.
  cbn [repopulated pending doc selects]. apply List.Forall_app.
  split; (eapply List.Forall_impl; [|eassumption]);
    intros r (s & Hs & Hd); rewrite lookup_map_where, Hs; simpl; rewrite Hd;
    exists (f s); (split; [reflexivity|]);
    unfold is_dependent in *; now rewrite Hf.
Qed.

Lemma requests_from_targets (pvid : jsval) (w : world) :
  Forall (fun r => exists s, selects (doc w) !! r_select r = Some s
                             /\ is_dependent u s = true)
         (requests_from u pvid (selects (doc w))).
Proof.
  unfold requests_from.
  eapply List.Forall_impl; [|apply (collect_from_targets (is_dependent u) pvid _ 0)].
  intros r (_ & s & Hs & Hd). rewrite Nat.sub_0_r in Hs. eauto.
Qed.

Lemma step_targets (w w' : world) :
  step u w w' -> requests_target_dependents u w ->
  requests_target_dependents u w'
  /\ (forall i s, selects (doc w) !! i = Some s -> is_dependent u s = false ->
                  selects (doc w') !! i = Some s).
Proof.
  intros [w0 | w0 k resp] Hinv.
  - assert (Hkeep : forall f reqs i s,
               selects (doc w0) !! i = Some s -> is_dependent u s = false ->
               selects (doc (repopulated
                               (map_where (is_dependent u) f (selects (doc w0)))
                               reqs w0)) !! i = Some s).
    { intros f reqs i s Hs Hd. cbn [repopulated doc selects].
      rewrite lookup_map_where, Hs. simpl. now rewrite Hd. }
    unfold filter_unit.
    destruct (isItemAddPage w0 && negb (truthy (productVariantId w0))).
    { rewrite each_update. split; [|apply Hkeep].
      apply repopulated_targets; [reflexivity | assumption | constructor]. }
    destruct (truthy (productVariantId w0)).
    { rewrite remote_closed. split; [|apply Hkeep].
      apply repopulated_targets;
        [reflexivity | assumption | apply requests_from_targets]. }
    destruct (isProductVariantAddPage w0); [|now split].
    split; [|intros i s Hs Hd; now apply local_other_at].
    unfold requests_target_dependents.
    rewrite (proj2 (proj2 (proj2 (proj2 (local_frame u w0))))).
    eapply List.Forall_impl; [|exact Hinv].
    intros r (s & Hs & Hd). rewrite (local_select_at u w0 _ s Hs Hd).
    eexists. split; [reflexivity|]. unfold is_dependent in *.
    now rewrite (proj1 (local_select_frame _ (remove_next_help s))).
  - destruct (pending w0 !! k) as [r|] eqn:Hk.
    + assert (Hr : exists s, selects (doc w0) !! r_select r = Some s
                             /\ is_dependent u s = true).
      { unfold requests_target_dependents in Hinv.
        rewrite List.Forall_forall in Hinv. apply Hinv.
        apply list_elem_of_In. now apply (list_elem_of_lookup_2 _ k). }
      destruct resp as [results|].
      * rewrite (respond_success u k r results w0 Hk). split.
        -- unfold requests_target_dependents. cbn [pending doc selects].
           apply Forall_delete. eapply List.Forall_impl; [|exact Hinv].
           intros r' (s & Hs & Hd).
           destruct (decide (r_select r = r_select r')) as [E|E].
           ++ rewrite E, list_lookup_alter_eq, Hs. simpl. eexists.
              split; [reflexivity|]. unfold is_dependent in *.
              now rewrite (proj1 (success_select_frame _ _ s)).
           ++ rewrite list_lookup_alter_ne by assumption. eauto.
        -- intros i s Hs Hd. cbn [doc selects].
           destruct Hr as (sr & Hsr & Hdr).
           destruct (decide (r_select r = i)) as [E|E].
           ++ subst i. rewrite Hs in Hsr. injection Hsr as <-. congruence.
           ++ now rewrite list_lookup_alter_ne.
      * rewrite (respond_failure u k r w0 Hk). split; [|now cbn [doc]].
        unfold requests_target_dependents. cbn [pending doc].
        now apply Forall_delete.
    + rewrite (respond_nothing u k resp w0 Hk). now split.
Qed.

(** The parent identifier and the dependent selects after the remote
    populator are those before it. *)
Lemma remote_keeps_context (pvid : jsval) (w : world) :
  productVariantId (remote u pvid w) = productVariantId w
  /\ matched u (remote u pvid w) = matched u w
  /\ length (pending (remote u pvid w))
     = length (pending w) + length (matched u w).
Proof.
  rewrite remote_closed. split; [|split].
  - unfold productVariantId, isItemAddPage, isProductVariantAddPage,
      isProductVariantChangePage, product_variant_val, hiddenIdInput,
      all_controls.
    cbn [repopulated pathname doc selects inputs elements].
    rewrite find_map_where by reflexivity.
    destruct (List.find _ (selects (doc w))) as [s|]; simpl; [|reflexivity].
    now destruct (is_dependent u s).
  - unfold matched. cbn [repopulated doc selects]. unfold map_where.
    apply (indices_from_map_where (is_dependent u)). reflexivity.
  - cbn [repopulated pending]. rewrite length_app. f_equal.
    unfold requests_from, matched. apply requests_count.
Qed.

Lemma filter_unit_pending_grows (w : world) :
  exists more, pending (filter_unit u w) = pending w ++ more.
Proof.
  unfold filter_unit.
  destruct (isItemAddPage w && negb (truthy (productVariantId w))).
  { rewrite each_update. now exists []. }
  destruct (truthy (productVariantId w)).
  { rewrite remote_closed. eexists. reflexivity. }
  destruct (isProductVariantAddPage w).
  - exists []. rewrite app_nil_r. apply local_frame.
  - exists []. now rewrite app_nil_r.
Qed.

End RunFacts.

(** X7.  A select that is not a dependent select of the script is never
    changed by a run, provided the requests pending at the start were sent
    for dependent selects (as all requests of the script are; in
    particular when none is pending). *)
Theorem runs_leave_other_selects (u : unit_spec) (w w' : world) :
  steps u w w' ->
  requests_target_dependents u w ->
  requests_target_dependents u w'
  /\ (forall i s,
        selects (doc w) !! i = Some s -> is_dependent u s = false ->
        selects (doc w') !! i = Some s).
Proof.
  induction 1 as [w | w1 w2 w3 H12 _ IH]; intros Hinv; [now split|].
  destruct (step_targets u _ _ H12 Hinv) as [Hinv2 Hkeep].
  destruct (IH Hinv2) as [Hinv3 Hkeep3].
  split; [exact Hinv3|]. intros i s Hs Hd. apply Hkeep3; [|exact Hd].
  now apply Hkeep.
Qed.

(** X8.  Requests are never cancelled.  A call of the routine keeps every
    pending request, and with a parent identifier each call adds one
    request per dependent select: after [n] calls in a row, [n] requests
    per dependent select have been added. *)
Theorem requests_accumulate (u : unit_spec) (w : world) :
  (exists more, pending (filter_unit u w) = pending w ++ more)
  /\ (truthy (productVariantId w) = true ->
      forall n,
        length (pending (Nat.iter n (filter_unit u) w))
        = length (pending w) + n * length (matched u w)).
Proof.
  split; [apply filter_unit_pending_grows|].
  intros Hv n.
  assert (H : productVariantId (Nat.iter n (filter_unit u) w) = productVariantId w
              /\ matched u (Nat.iter n (filter_unit u) w) = matched u w
              /\ length (pending (Nat.iter n (filter_unit u) w))
                 = length (pending w) + n * length (matched u w)).
  { induction n as [|n (IH1 & IH2 & IH3)]; [simpl; repeat split; lia|].
    rewrite !Nat.iter_succ. rewrite filter_unit_remote by now rewrite IH1.
    destruct (remote_keeps_context u
                (productVariantId (Nat.iter n (filter_unit u) w))
                (Nat.iter n (filter_unit u) w)) as (H1 & H2 & H3).
    rewrite H1, H2, H3, IH1, IH2, IH3. repeat split. lia. }
  apply H.
Qed.

(** ** Further properties: events, and the shorter copy *)

Section EventFacts.

Local Notation "a +++ b" := (String.append a b)
  (at level 60, right associativity).

Lemma indices_from_inv {A : Type} (P : A -> bool) (l : list A) :
  forall n k, In k (indices_from P n l) ->
              n <= k /\ exists x, l !! (k - n) = Some x /\ P x = true.
Proof.
  induction l as [|y l IH]; intros n k H; [contradiction|].
  simpl in H.
  assert (Htail : In k (indices_from P (S n) l) ->
                  n <= k /\ exists x, (y :: l) !! (k - n) = Some x /\ P x = true).
  { intros H'. destruct (IH (S n) k H') as (Hle & x & Hx & HP).
    split; [lia|]. exists x. split; [|exact HP].
    replace (k - n) with (S (k - S n)) by lia. exact Hx. }
  destruct (P y) eqn:HP; [|now apply Htail].
  destruct H as [<- | H]; [|now apply Htail].
  split; [lia|]. exists y. rewrite Nat.sub_diag. now split.
Qed.

Lemma product_variant_target_inv (d : document) (k : nat) :
  In k (product_variant_target d) ->
  exists t, targets d !! k = Some t /\ t_id t = "id_product_variant".
Proof.
  unfold product_variant_target.
  destruct (indices_from _ 0 (targets d)) as [|j rest] eqn:E; [contradiction|].
  intros [<- | []].
  assert (Hin : In j (indices_from
                        (fun t => (t_id t =? "id_product_variant")%string)
                        0 (targets d))) by (rewrite E; now left).
  apply indices_from_inv in Hin as (_ & t & Ht & HP).
  rewrite Nat.sub_0_r in Ht. exists t. split; [exact Ht|].
  now apply String.eqb_eq.
Qed.

Lemma field_targets_inv (u : unit_spec) (d : document) (k : nat) :
  In k (field_targets u d) ->
  exists t, targets d !! k = Some t
            /\ existsb (fun suf => ends_with suf (t_name t)) (field_suffixes u)
               = true.
Proof.
  intros H. apply indices_from_inv in H as (_ & t & Ht & HP).
  rewrite Nat.sub_0_r in Ht. eauto.
Qed.

Lemma ends_with_last_char (suf s : string) :
  suf <> EmptyString -> ends_with suf s = true -> last_char s = last_char suf.
Proof.
  intros Hne. induction s as [|c s IH]; intros H.
  - cbn [ends_with] in H.
    destruct (String.eqb_spec EmptyString suf); [congruence | discriminate H].
  - cbn [ends_with] in H.
    destruct (String.eqb_spec (String c s) suf) as [<- | _]; [reflexivity|].
    destruct s as [|c' s].
    + cbn [ends_with] in H.
      destruct (String.eqb_spec EmptyString suf); [congruence | discriminate H].
    + cbn [last_char]. now apply IH.
Qed.

Lemma delete_box_is_no_sub_field (u : unit_spec) (name : string) :
  u = pricing_tier_unit \/ u = table_field_unit ->
  ends_with "-DELETE" name = true ->
  existsb (fun suf => ends_with suf name) (field_suffixes u) = false.
Proof.
  intros Hu Hd.
  pose proof (ends_with_last_char "-DELETE" name ltac:(discriminate) Hd) as Hl.
  assert (Hno : forall suf, suf <> EmptyString -> last_char suf <> last_char "-DELETE" ->
                            ends_with suf name = false).
  { intros suf Hne Hdiff. destruct (ends_with suf name) eqn:E; [|reflexivity].
    apply (ends_with_last_char suf name Hne) in E. congruence. }
  destruct Hu as [-> | ->]; simpl;
    rewrite ?Hno; try reflexivity; try discriminate.
Qed.

Lemma includes_mid (s a b c : string) :
  includes s (a +++ b +++ c) = true -> includes s b = true.
Proof.
  intros H. apply includes_inv in H as (pre & post & ->).
  rewrite (string_app_assoc a), (string_app_assoc b).
  rewrite <- (string_app_assoc pre a).
  apply includes_app.
Qed.

Lemma add_pages_contain_add (w : world) :
  isItemAddPage w = true \/ isProductVariantAddPage w = true ->
  Legacy.isAddPage w = true.
Proof.
  unfold isItemAddPage, isProductVariantAddPage, Legacy.isAddPage.
  intros [H | H].
  - exact (includes_mid _ "/ecommerce/item" "/add/" EmptyString H).
  - exact (includes_mid _ "/ecommerce/productvariant" "/add/" EmptyString H).
Qed.

Lemma match_lit_skip (lit : string) (c : ascii) (s : string) :
  starts_with lit (String c s) = false ->
  Legacy.match_lit lit (String c s) = Legacy.match_lit lit s.
Proof.
  intros H. cbn [Legacy.match_lit]. unfold Legacy.match_lit_here.
  unfold starts_with in H.
  now destruct (strip_prefix lit (String c s)).
Qed.

Lemma match_lit_head (lit ds post : string) :
  all_digits ds = true -> ds <> EmptyString ->
  Legacy.match_lit lit (lit +++ ds +++ change_suffix +++ post) = Some ds.
Proof.
  intros Hd Hne. pose proof (match_lit_here_complete lit ds post Hd Hne) as H.
  destruct (lit +++ ds +++ change_suffix +++ post);
    cbn [Legacy.match_lit]; now rewrite H.
Qed.

(** The two expressions on the address of a change page of the admin. *)
Lemma admin_change_path (ds post : string) :
  all_digits ds = true -> ds <> EmptyString ->
  let path := "/admin/ecommerce/productvariant/" +++ ds +++ change_suffix +++ post in
  match_change path = Some ds
  /\ Legacy.match_lit Legacy.productvariant_lit path = Some ds.
Proof.
  intros Hd Hne path. subst path. split.
  - rewrite match_change_match_lit.
    change ("/admin/ecommerce/productvariant/" +++ ds +++ change_suffix +++ post)
      with ("/admin" +++ productvariant_prefix +++ ds +++ change_suffix +++ post).
    cbn [String.append].
    do 6 (rewrite match_lit_skip by reflexivity).
    now apply match_lit_head.
  - change ("/admin/ecommerce/productvariant/" +++ ds +++ change_suffix +++ post)
      with ("/admin/ecommerce" +++ Legacy.productvariant_lit +++ ds
            +++ change_suffix +++ post).
    cbn [String.append].
    do 16 (rewrite match_lit_skip by reflexivity).
    now apply match_lit_head.
Qed.

End EventFacts.

(** X15.  A change event on an element that is neither the ProductVariant
    drop-down nor one of the inline sub-fields of the script does not run
    the routine and leaves the page as it is.  The deletion checkbox of a
    row is such an element in both scripts: ticking it does not by itself
    refresh the dependent selects. *)
Theorem other_changes_do_not_run (u : unit_spec) (w : world) (k : nat)
  (t : target) :
  targets (doc (state (ready u w))) !! k = Some t ->
  t_id t <> "id_product_variant" ->
  existsb (fun suf => ends_with suf (t_name t)) (field_suffixes u) = false
  \/ ((u = pricing_tier_unit \/ u = table_field_unit)
      /\ ends_with "-DELETE" (t_name t) = true) ->
  invocations u (Change k) (ready u w) = 0
  /\ dispatch u (Change k) (ready u w) = ready u w.
Proof.
  intros Hk Hid Hname.
  assert (Hsuf : existsb (fun suf => ends_with suf (t_name t)) (field_suffixes u)
                 = false).
  { destruct Hname as [H | [Hu Hd]]; [exact H|].
    now apply delete_box_is_no_sub_field. }
  assert (H0 : invocations u (Change k) (ready u w) = 0).
  { cbn [invocations]. apply count_occ_not_In.
    cbn [ready listeners state] in *. intros Hin.
    apply in_app_or in Hin as [Hin | Hin].
    - apply product_variant_target_inv in Hin as (t' & Ht' & Hid').
      rewrite Hk in Ht'. injection Ht' as <-. contradiction.
    - apply field_targets_inv in Hin as (t' & Ht' & Hs').
      rewrite Hk in Ht'. injection Ht' as <-. congruence. }
  split; [exact H0|]. unfold dispatch. rewrite H0. reflexivity.
Qed.

(** X16.  The shorter copy takes every path that contains [/add/] for an
    add page, the Item add page included: with no input named [id], or an
    empty one, it runs the local populator there, and with a value in that
    input the remote populator for it.  It never reads the ProductVariant
    drop-down. *)
Theorem legacy_add_pages (w : world) :
  (isItemAddPage w = true \/ isProductVariantAddPage w = true ->
   Legacy.isAddPage w = true)
  /\ (Legacy.isAddPage w = true ->
      hiddenIdInput (doc w) = []
      \/ (exists c cs, hiddenIdInput (doc w) = c :: cs
                       /\ c_value c = EmptyString) ->
      Legacy.filterPricingTiers w = local pricing_tier_unit w)
  /\ (Legacy.isAddPage w = true ->
      forall c cs,
        hiddenIdInput (doc w) = c :: cs -> c_value c <> EmptyString ->
        Legacy.filterPricingTiers w
        = remote pricing_tier_unit (Str (c_value c)) w).
Proof.
  split; [apply add_pages_contain_add|]. split.
  - intros Ha Hh.
    assert (Hpv : truthy (Legacy.productVariantId w) = false).
    { unfold Legacy.productVariantId. rewrite Ha.
      destruct Hh as [Hh | (c & cs & Hh & He)]; rewrite Hh;
        cbn [length Nat.eqb negb andb controls_val truthy];
        [reflexivity | now rewrite He]. }
    unfold Legacy.filterPricingTiers. now rewrite Hpv, Ha.
  - intros Ha c cs Hh Hne. apply String.eqb_neq in Hne.
    assert (Hpv : Legacy.productVariantId w = Str (c_value c)).
    { unfold Legacy.productVariantId. rewrite Ha, Hh.
      cbn [length Nat.eqb negb andb controls_val truthy]. now rewrite Hne. }
    unfold Legacy.filterPricingTiers. rewrite Hpv.
    cbn [truthy]. now rewrite Hne.
Qed.

(** X17.  On the ProductVariant add page the shorter copy and
    [filterPricingTiers] do the same. *)
Theorem legacy_agrees_on_variant_add_page (w : world) :
  isItemAddPage w = false -> isProductVariantAddPage w = true ->
  Legacy.filterPricingTiers w = filterPricingTiers w.
Proof.
  intros Hi Ha.
  pose proof (add_pages_contain_add w (or_intror Ha)) as Hadd.
  unfold Legacy.filterPricingTiers, filterPricingTiers, filter_unit,
    Legacy.productVariantId, productVariantId.
  rewrite Hi, Ha, Hadd. reflexivity.
Qed.

(** X18.  On the change page of a ProductVariant of the admin, with no
    [/add/] in its path, the shorter copy and [filterPricingTiers] find the
    same parent identifier, the digits of the path, and do the same. *)
Theorem legacy_agrees_on_change_page (w : world) (ds post : string) :
  pathname w
  = ("/admin/ecommerce/productvariant/" ++ ds ++ change_suffix ++ post)%string ->
  all_digits ds = true -> ds <> EmptyString ->
  Legacy.isAddPage w = false ->
  Legacy.productVariantId w = Str ds
  /\ productVariantId w = Str ds
  /\ Legacy.filterPricingTiers w = filterPricingTiers w.
Proof.
  intros Hp Hd Hne Ha.
  destruct (admin_change_path ds post Hd Hne) as [Hm Hl].
  rewrite <- Hp in Hm, Hl.
  assert (Hi : isItemAddPage w = false).
  { destruct (isItemAddPage w) eqn:E; [|reflexivity].
    rewrite (add_pages_contain_add w (or_introl E)) in Ha. discriminate. }
  assert (Hv : isProductVariantAddPage w = false).
  { destruct (isProductVariantAddPage w) eqn:E; [|reflexivity].
    rewrite (add_pages_contain_add w (or_intror E)) in Ha. discriminate. }
  assert (H1 : Legacy.productVariantId w = Str ds).
  { unfold Legacy.productVariantId, Legacy.isChangePage. now rewrite Ha, Hl. }
  assert (H2 : productVariantId w = Str ds).
  { unfold productVariantId, isProductVariantChangePage. now rewrite Hi, Hv, Hm. }
  split; [exact H1|]. split; [exact H2|].
  unfold Legacy.filterPricingTiers, filterPricingTiers, filter_unit.
  rewrite H1, H2, Hi, Ha, Hv. reflexivity.
Qed.

(** X19.  In the shorter copy only the inline sub-fields carry a change
    listener: a change of any other element, the ProductVariant drop-down
    included, does not run its routine, while a change of a sub-field that
    was on the page at load runs it. *)
Theorem legacy_change_listeners (w : world) (k : nat) (t : target) :
  targets (doc (state (Legacy.ready w))) !! k = Some t ->
  (existsb (fun suf => ends_with suf (t_name t))
           (field_suffixes pricing_tier_unit) = false ->
   invocations pricing_tier_unit (Change k) (Legacy.ready w) = 0
   /\ Legacy.dispatch (Change k) (Legacy.ready w) = Legacy.ready w)
  /\ (existsb (fun suf => ends_with suf (t_name t))
              (field_suffixes pricing_tier_unit) = true ->
      1 <= invocations pricing_tier_unit (Change k) (Legacy.ready w)).
Proof.
  intros Hk. split.
  - intros Hsuf.
    assert (H0 : invocations pricing_tier_unit (Change k) (Legacy.ready w) = 0).
    { cbn [invocations]. apply count_occ_not_In.
      cbn [Legacy.ready listeners state] in *. intros Hin.
      apply field_targets_inv in Hin as (t' & Ht' & Hs').
      rewrite Hk in Ht'. injection Ht' as <-. congruence. }
    split; [exact H0|]. unfold Legacy.dispatch. rewrite H0. reflexivity.
  - intros Hsuf. apply listener_runs.
    cbn [Legacy.ready listeners state] in *.
    exact (In_indices_from _ _ 0 k t Hk Hsuf).
Qed.

(** ** Further properties: the local populator run again *)

Section LocalAgain.

Variable u : unit_spec.
Hypothesis Hu : u = pricing_tier_unit \/ u = table_field_unit.

Lemma starts_with_not_empty (p s : string) :
  p <> EmptyString -> starts_with p s = true -> s <> EmptyString.
Proof.
  intros Hp H ->. apply starts_with_inv in H as [r H].
  destruct p; [congruence | discriminate].
Qed.

Lemma row_prefix_not_empty : row_prefix u <> EmptyString.
Proof. destruct Hu as [-> | ->]; discriminate. Qed.

Lemma row_identifier_not_empty (row : element) :
  starts_with (row_prefix u) (e_id row) = true ->
  row_identifier row <> EmptyString.
Proof.
  intros Hrow. unfold row_identifier.
  pose proof (sub_field_spec "-id" row) as H.
  destruct (sub_field "-id" row) as [pk|].
  - destruct H as [_ H]. simpl in H. intros ->. discriminate.
  - exact (starts_with_not_empty _ _ row_prefix_not_empty Hrow).
Qed.

(** The identifiers collected from the rows are non-empty strings. *)
Lemma collect_rows_ids (d : document) :
  Forall (fun it => exists x, item_id it = Str x /\ x <> EmptyString)
         (collect_rows u d).
Proof.
  rewrite collect_rows_flat_map. apply List.Forall_forall. intros it Hin.
  apply in_flat_map in Hin as (row & Hrow & Hin).
  unfold rows_read in Hrow. apply in_map_iff in Hrow as (row0 & <- & Hrow).
  unfold formset_rows in Hrow. apply filter_In in Hrow as [_ Hrow].
  change (e_id row0) with (e_id (view (selects d) row0)) in Hrow.
  set (row := view (selects d) row0) in *.
  unfold push_row in Hin.
  destruct (is_checked _); [contradiction|].
  destruct (row_item u row) as [it'|] eqn:E; [|contradiction].
  destruct Hin as [<- | []].
  exists (row_identifier row). split.
  - now apply (row_item_identifier u row).
  - now apply row_identifier_not_empty.
Qed.

Lemma append_items_ext (v v' : jsval) (items : list item) :
  Forall (fun it => strict_eq (item_id it) v = strict_eq (item_id it) v') items ->
  forall s, append_items v items s = append_items v' items s.
Proof.
  induction 1 as [|it items Hit _ IH]; intros s; [reflexivity|].
  unfold append_items in *. simpl. rewrite Hit. apply IH.
Qed.

Lemma val_frame (s t : select) :
  options s = options t -> selectedIndex s = selectedIndex t -> val s = val t.
Proof. intros Ho Hi. unfold val. now rewrite Ho, Hi. Qed.

(** One more turn of the local populator on a select it has populated. *)
Lemma local_select_again (items : list item) (s : select) :
  Forall (fun it => exists x, item_id it = Str x /\ x <> EmptyString) items ->
  dropdown s -> no_help_next s ->
  local_select u items (remove_next_help (local_select u items s))
  = local_select u items s.
Proof.
  intros Hids [(o & rest & Ho & Hph) Hsel] Hnext.
  set (N := {| s_id := s_id s; s_name := s_name s; disabled := false;
               options := [o]; selectedIndex := Some 0;
               following := following s |}).
  assert (HN : remove_options_not_first (prop_disabled false s) = N).
  { exact (remove_options_not_first_selected (prop_disabled false s) o rest
             Ho Hsel). }
  set (a := append_items (val s) items N).
  assert (Ht : local_select u items s
               = if (length items =? 0)%nat
                 then after (help_p (empty_help u)) (prop_disabled true a)
                 else a).
  { unfold local_select. now rewrite HN. }
  destruct (append_items_frame (val s) items N) as (Fi & Fn & Fd & Ff).
  fold a in Fi, Fn, Fd, Ff.
  assert (Hoa : options a = o :: map result_option items).
  { unfold a. now rewrite options_append_items. }
  assert (Hsa : has_selection a).
  { unfold a. apply has_selection_append_items. now exists 0, o. }
  set (t := local_select u items s) in *.
  set (t' := remove_next_help t).
  assert (Hfields : s_id t' = s_id s /\ s_name t' = s_name s
                    /\ options t' = options a
                    /\ selectedIndex t' = selectedIndex a
                    /\ following t' = following s).
  { unfold t'. rewrite Ht.
    destruct (length items =? 0)%nat eqn:E; cbn; rewrite ?Fi, ?Fn, ?Ff;
      repeat split; try reflexivity.
    cbn [N following] in *. unfold no_help_next in Hnext.
    destruct (following s) as [|n ns]; [reflexivity|]. now rewrite Hnext. }
  destruct Hfields as (G1 & G2 & G3 & G4 & G5).
  assert (HN' : remove_options_not_first (prop_disabled false t') = N).
  { rewrite (remove_options_not_first_selected (prop_disabled false t') o
               (map result_option items)).
    - cbn [prop_disabled s_id s_name disabled following]. unfold N.
      now rewrite G1, G2, G5.
    - cbn [prop_disabled options]. now rewrite G3.
    - destruct Hsa as (i & oi & Hi & Hl). exists i, oi.
      cbn [prop_disabled options selectedIndex]. now rewrite G3, G4. }
  assert (Hval : val t' = val a) by now apply val_frame.
  assert (Ha' : append_items (val t') items N = a).
  { rewrite Hval. unfold a at 2. apply append_items_ext.
    destruct (List.Exists_dec
                (fun it => strict_eq (item_id it) (val s) = true) items
                (fun it => bool_dec _ _)) as [He | Hne].
    - assert (Hva : val a = val s).
      { pose proof He as He'.
        apply List.Exists_exists in He' as (it & Hin & Heq).
        rewrite List.Forall_forall in Hids.
        destruct (Hids it Hin) as (x & Hx & _). rewrite Hx in Heq.
        destruct (val s) as [| |y|n] eqn:Ev; simpl in Heq; try discriminate.
        unfold a. rewrite ?Ev. now apply val_append_match. }
      rewrite Hva. apply List.Forall_forall. reflexivity.
    - assert (Hall : Forall (fun it => strict_eq (item_id it) (val s) = false)
                            items).
      { apply List.Forall_forall. intros it Hin.
        destruct (strict_eq (item_id it) (val s)) eqn:E; [|reflexivity].
        exfalso. apply Hne. apply List.Exists_exists. now exists it. }
      assert (Hia : selectedIndex a = Some 0).
      { unfold a. now rewrite selectedIndex_append_no_match. }
      rewrite (val_first a o _ Hoa Hia), Hph.
      apply List.Forall_forall. intros it Hin.
      rewrite List.Forall_forall in Hall, Hids. rewrite (Hall it Hin).
      destruct (Hids it Hin) as (x & Hx & Hxne). rewrite Hx. simpl.
      apply String.eqb_neq in Hxne. now rewrite Hxne. }
  unfold local_select at 1. rewrite HN', Ha'. now rewrite Ht.
Qed.

End LocalAgain.

(** X13.  The routine is called again on every change of the form.  On the
    add page of a ProductVariant that is not saved, when no sub-field of a
    formset row is itself a dependent select and the dependent selects are
    drop-downs with the placeholder first, a selected option and at most one
    help message right after them, a second call without any change to the
    form leaves the page as the first call left it. *)
Theorem local_populator_is_idempotent (u : unit_spec) (w : world) :
  u = pricing_tier_unit \/ u = table_field_unit ->
  rows_apart u (doc w) ->
  (forall s, In s (selects (doc w)) -> is_dependent u s = true ->
             dropdown s /\ no_help_next (remove_next_help s)) ->
  local u (local u w) = local u w.
Proof.
  intros Hu Hap Hall.
  assert (Hw1 : local u w
                = repopulated
                    (map_where (is_dependent u)
                       (fun s => local_select u (collect_rows u (doc w))
                                   (remove_next_help s))
                       (selects (doc w))) [] w) by now apply local_closed_apart.
  assert (Hap1 : rows_apart u (doc (local u w))).
  { rewrite Hw1. intros row c k s Hrow Hc Hk Hs.
    cbn [repopulated doc selects] in Hs.
    rewrite lookup_map_where in Hs.
    destruct (selects (doc w) !! k) as [s0|] eqn:E; [|discriminate].
    pose proof (Hap row c k s0 Hrow Hc Hk E) as Hd.
    simpl in Hs. rewrite Hd in Hs. injection Hs as <-. exact Hd. }
  assert (Hitems : collect_rows u (doc (local u w)) = collect_rows u (doc w)).
  { rewrite Hw1.
    apply (collect_rows_others u (doc w)); [exact Hap | |].
    - unfold map_where. apply length_map.
    - intros k s Hk Hd. rewrite lookup_map_where, Hk. simpl. now rewrite Hd. }
  rewrite (local_closed_apart u (local u w) Hap1), Hitems.
  set (items := collect_rows u (doc w)) in *.
  rewrite Hw1 at 1 2. rewrite repopulated_twice.
  cbn [repopulated doc selects].
  rewrite map_where_compose
    by (intros s; unfold is_dependent;
        now rewrite (proj1 (local_select_frame u _ (remove_next_help s)))).
  rewrite Hw1. unfold repopulated. f_equal. f_equal.
  unfold map_where. apply map_ext_in. intros s Hin.
  destruct (is_dependent u s) eqn:Hd; [|reflexivity].
  destruct (Hall s Hin Hd) as [Hdrop Hnext].
  apply (local_select_again u items (remove_next_help s));
    [apply (collect_rows_ids u Hu) | exact Hdrop | exact Hnext].
Qed.

(** ** Further properties: the selected value, and selects inside rows *)

Section KeptValue.







(** The value read from a select, as far as the scripts use it. *)
Lemma value_text_val (s : select) :
  truthy (Str (value_text (val s))) = truthy (val s)
  /\ (truthy (val s) = true -> Str (value_text (val s)) = val s).
Proof.
  destruct (val_cases s) as [E | [x E]]; rewrite E; simpl; split;
    try reflexivity; discriminate.
Qed.

(** A select with the placeholder first reads empty once it has lost its
    other options. *)
Lemma value_text_emptied (s : select) :
  placeholder_first s -> value_text (val (emptied s)) = EmptyString.
Proof.
  intros (o & rest & Ho & Hph). unfold emptied, remove_options_not_first.
  cbn [prop_disabled options]. rewrite Ho.
  destruct rest as [|o2 rest].
  - unfold val. cbn [prop_disabled selectedIndex options]. rewrite Ho.
    destruct (selectedIndex s) as [[|j]|]; cbn; [exact Hph | reflexivity..].
  - unfold val. cbn. exact Hph.
Qed.

Lemma c_select_current (ss : list select) (c : control) :
  c_select (current ss c) = c_select c.
Proof.
  unfold current. destruct (c_select c) as [k|] eqn:E; [|exact E].
  destruct (ss !! k); [reflexivity | exact E].
Qed.

Lemma selects_when_read_own (u : unit_spec) (w : world) (i : nat) (s : select) :
  selects (doc w) !! i = Some s -> is_dependent u s = true ->
  selects_when_read u w i !! i = Some (emptied (remove_next_help s)).
Proof.
  intros Hs Hd. rewrite (selects_when_read_at u w i s Hs), Hd.
  assert (Hi : i < length (selects (doc w)))
    by (apply lookup_lt_is_Some; eauto).
  assert (Hlen : length (selects (doc (local u w))) = length (selects (doc w))).
  { rewrite local_closed. cbn [repopulated doc selects].
    destruct (local_loop_spec u (doc w)
                (map_where (is_dependent u) remove_next_help (selects (doc w)))
                []) as (Hl & _).
    rewrite Hl. cbn [length Nat.add]. unfold map_where. apply length_map. }
  rewrite lookup_app_r by (rewrite length_take; lia).
  rewrite length_take.
  replace (i - i `min` length (selects (doc (local u w)))) with 0 by lia.
  reflexivity.
Qed.

End KeptValue.


(** X21.  A sub-field that is itself a dependent select.  The selector of
    the dependent selects also matches a select inside a formset row when
    its id contains the key of the script.  In the turn of such a select
    the local populator empties it before it reads the rows: a row that
    reads one of its required sub-fields from that select, whose first
    option is the empty placeholder, is read without that sub-field and
    contributes no option in that turn. *)
Theorem own_select_is_read_empty (u : unit_spec) (w : world) (i : nat)
  (s : select) (row : element) (suf : string) (c : control) :
  (u = pricing_tier_unit
   /\ In suf ["-tier_type"; "-range_start"; "-range_end"])
  \/ (u = table_field_unit /\ In suf ["-name"; "-field_type"]) ->
  selects (doc w) !! i = Some s -> is_dependent u s = true ->
  placeholder_first s ->
  List.find (fun c => ends_with suf (c_name c))
            (e_controls (view (selects_when_read u w i) row)) = Some c ->
  c_select c = Some i ->
  sub_field suf (view (selects_when_read u w i) row) = None
  /\ (forall acc, push_row u acc (view (selects_when_read u w i) row) = acc).
Proof.
  intros Hu Hs Hd Hp Hfind Hc.
  set (ss := selects_when_read u w i) in *.
  assert (Hval : c_value c = EmptyString).
  { apply find_some in Hfind as [Hin _].
    cbn [view e_controls] in Hin. apply in_map_iff in Hin as (c0 & <- & _).
    rewrite c_select_current in Hc. unfold current. rewrite Hc.
    unfold ss. rewrite (selects_when_read_own u w i s Hs Hd).
    cbn [c_value]. now apply (value_text_emptied (remove_next_help s)). }
  assert (Hsub : sub_field suf (view ss row) = None).
  { unfold sub_field. rewrite Hfind, Hval. reflexivity. }
  split; [exact Hsub|]. intros acc.
  rewrite push_row_app, lacks_required_push_row; [apply app_nil_r|].
  destruct Hu as [[-> Hsuf] | [-> Hsuf]]; [left | right];
    (split; [reflexivity|]); cbn [In] in Hsuf.
  - destruct Hsuf as [<- | [<- | [<- | []]]]; auto.
  - destruct Hsuf as [<- | [<- | []]]; auto.
Qed.

(** ** The further properties on the sample pages *)

Lemma change_pattern_is_recognised_witness :
  all_digits "42" = true
  /\ includes "/admin/ecommerce/productvariant/42/change/" "42/change/" = true.
Proof.
  destruct (change_pattern_is_recognised
              "/admin/ecommerce/productvariant/42/change/") as (_ & _ & H).
  destruct (H "42" (or_introl eq_refl)) as (H1 & _ & H3).
  split; [exact H1 | exact H3].
Defined.

Lemma other_pages_are_left_alone_witness :
  filterPricingTiers Samples.list_page = Samples.list_page
  /\ Legacy.filterPricingTiers Samples.list_page = Samples.list_page.
Proof.
  destruct (other_pages_are_left_alone pricing_tier_unit Samples.list_page)
    as [H1 H2].
  split.
  - apply H1; [reflexivity | reflexivity |].
    apply (proj1 (match_lit_None productvariant_prefix _)). reflexivity.
  - apply H2; [reflexivity|].
    apply (proj1 (match_lit_None Legacy.productvariant_lit _)). reflexivity.
Defined.

Lemma remote_run_enables_selects_witness :
  truthy (productVariantId Examples.change_page) = true
  /\ exists s',
       selects (doc (filterPricingTiers Examples.change_page)) !! 0 = Some s'
       /\ disabled s' = false
       /\ options s' = options Examples.tier_select.
Proof.
  split; [reflexivity|].
  destruct (remote_run_enables_selects pricing_tier_unit Examples.change_page
              eq_refl) as (H & _).
  destruct (H 0 Examples.tier_select eq_refl eq_refl)
    as (s' & H1 & H2 & _ & H4 & _).
  exists s'. repeat split; assumption.
Defined.

Lemma parent_identifier_on_add_pages_witness :
  filterPricingTiers Samples.saved_add_page
  = remote pricing_tier_unit (Str "7") Samples.saved_add_page
  /\ filterPricingTiers Examples.add_page
     = local pricing_tier_unit Examples.add_page
  /\ filterPricingTiers Samples.item_add_page_chosen
     = remote pricing_tier_unit (Str "42") Samples.item_add_page_chosen.
Proof.
  split; [|split].
  - destruct (parent_identifier_on_add_pages pricing_tier_unit
                Samples.saved_add_page) as (H & _).
    exact (H eq_refl eq_refl _ [] eq_refl ltac:(discriminate)).
  - destruct (parent_identifier_on_add_pages pricing_tier_unit
                Examples.add_page) as (_ & H & _).
    exact (H eq_refl eq_refl (or_introl eq_refl)).
  - destruct (parent_identifier_on_add_pages pricing_tier_unit
                Samples.item_add_page_chosen) as (_ & _ & H).
    exact (H eq_refl eq_refl).
Defined.

Lemma local_populator_without_entries_witness :
  (exists s',
     selects (doc (local pricing_tier_unit Samples.empty_add_page)) !! 0
     = Some s'
     /\ disabled s' = true
     /\ options s' = [Examples.placeholder])
  /\ (exists s',
        selects (doc (local pricing_tier_unit Samples.add_page_with_select)) !! 1
        = Some s'
        /\ disabled s' = true
        /\ options s' = [Examples.placeholder]).
Proof.
  split.
  - destruct (local_populator_without_entries pricing_tier_unit
                Samples.empty_add_page 0 Examples.tier_select eq_refl eq_refl)
      as (_ & _ & s' & H1 & H2 & _).
    destruct (H2 eq_refl) as (H3 & _ & H5).
    exists s'. repeat split; assumption.
  - destruct (local_populator_without_entries pricing_tier_unit
                Samples.add_page_with_select 1 Samples.tier_type_select
                eq_refl eq_refl)
      as (_ & _ & s' & H1 & H2 & _).
    destruct (H2 eq_refl) as (H3 & _ & H5).
    exists s'. repeat split; assumption.
Defined.

Lemma choosing_a_variant_enables_witness :
  exists s2,
    selects (doc (filterPricingTiers Samples.item_add_page_chosen)) !! 1
    = Some s2
    /\ disabled s2 = false
    /\ following s2 = [].
Proof.
  destruct (choosing_a_variant_enables pricing_tier_unit
              Examples.item_add_page Samples.item_add_page_chosen 1
              Examples.tier_select eq_refl eq_refl eq_refl eq_refl eq_refl
              eq_refl) as (s2 & H1 & H2 & H3 & _).
  exists s2. repeat split; assumption.
Defined.

Lemma answer_replaces_options_witness :
  exists s',
    selects (doc (respond pricing_tier_unit 0
                    (Success Examples.numeric_results)
                    Examples.change_page_waiting)) !! 0 = Some s'
    /\ options s'
       = [Examples.placeholder;
          {| o_value := Some "5"; o_text := "Pack (1-10)" |};
          {| o_value := Some "6"; o_text := "Pallet (11-20)" |}].
Proof.
  destruct (answer_replaces_options pricing_tier_unit
              Examples.change_page_waiting 0
              {| r_type := "GET";
                 r_url := "/admin/ecommerce/pricingtier/autocomplete/";
                 r_data := [("product_variant_id", Str "42");
                            ("q", Str EmptyString)];
                 r_select := 0; r_selectedValue := Str "5" |}
              Examples.numeric_results Examples.tier_select
              eq_refl eq_refl) as ((s' & H1 & H2) & _).
  exists s'. split; [exact H1 | exact H2].
Defined.

Lemma numeric_answer_selects_no_result_witness :
  exists s',
    selects (doc (respond pricing_tier_unit 0
                    (Success Examples.numeric_results)
                    Examples.change_page_waiting)) !! 0 = Some s'
    /\ (selectedIndex s' = Some 0 \/ selectedIndex s' = None).
Proof.
  apply (numeric_answer_selects_no_result pricing_tier_unit
           Examples.change_page_waiting 0
           {| r_type := "GET";
              r_url := "/admin/ecommerce/pricingtier/autocomplete/";
              r_data := [("product_variant_id", Str "42");
                         ("q", Str EmptyString)];
              r_select := 0; r_selectedValue := Str "5" |}
           Examples.numeric_results Examples.tier_select Examples.tier_select
           eq_refl eq_refl eq_refl).
  - exists 1, Examples.tier5. split; reflexivity.
  - repeat constructor; eexists; reflexivity.
Defined.

Lemma duplicate_answer_changes_nothing_witness :
  success_select (Str "5") Examples.string_results
    (success_select (Str "5") Examples.string_results Examples.tier_select)
  = success_select (Str "5") Examples.string_results Examples.tier_select.
Proof.
  apply duplicate_answer_changes_nothing.
  exists 1, Examples.tier5. split; reflexivity.
Defined.

Lemma answer_overrides_later_choice_witness :
  success_select (Str "5") Examples.string_results Examples.tier_select
  = success_select (Str "5") Examples.string_results
      Samples.tier_select_cleared.
Proof.
  apply (answer_overrides_later_choice _ _ _ _ Examples.placeholder
           Examples.tier5 []).
  - repeat split.
  - reflexivity.
Defined.

Lemma runs_leave_other_selects_witness :
  selects (doc (respond pricing_tier_unit 0 (Success Examples.string_results)
                  (filterPricingTiers Examples.change_page))) !! 1
  = Some Examples.field_select.
Proof.
  assert (H : steps pricing_tier_unit Examples.change_page
                (respond pricing_tier_unit 0 (Success Examples.string_results)
                   (filterPricingTiers Examples.change_page))).
  { eapply steps_cons; [apply step_filter|].
    eapply steps_cons; [apply step_respond|]. apply steps_refl. }
  destruct (runs_leave_other_selects pricing_tier_unit _ _ H) as [_ Hkeep].
  - constructor.
  - exact (Hkeep 1 Examples.field_select eq_refl eq_refl).
Defined.

Lemma requests_accumulate_witness :
  truthy (productVariantId Examples.change_page) = true
  /\ length (pending (filterPricingTiers
                        (filterPricingTiers Examples.change_page))) = 2.
Proof.
  split; [reflexivity|].
  destruct (requests_accumulate pricing_tier_unit Examples.change_page)
    as [_ H].
  exact (H eq_refl 2).
Defined.

Lemma local_populator_is_idempotent_witness :
  local pricing_tier_unit (local pricing_tier_unit Examples.add_page)
  = local pricing_tier_unit Examples.add_page.
Proof.
  apply local_populator_is_idempotent;
    [now left | now apply plain_rows_apart |].
  intros s [<- | [<- | []]] Hd.
  - split; [split|].
    + exists Examples.placeholder, [Examples.tier5]. split; reflexivity.
    + exists 1, Examples.tier5. split; reflexivity.
    + exact I.
  - discriminate Hd.
Defined.

Lemma other_changes_do_not_run_witness :
  invocations pricing_tier_unit (Change 6)
    (ready pricing_tier_unit Examples.add_page) = 0.
Proof.
  destruct (other_changes_do_not_run pricing_tier_unit Examples.add_page 6
              {| t_id := "id_pricing_tiers-0-DELETE";
                 t_name := "pricing_tiers-0-DELETE" |}
              eq_refl ltac:(discriminate)
              (or_intror (conj (or_introl eq_refl) eq_refl))) as [H _].
  exact H.
Defined.

Lemma legacy_add_pages_witness :
  Legacy.isAddPage Examples.item_add_page = true
  /\ Legacy.filterPricingTiers Examples.item_add_page
     = local pricing_tier_unit Examples.item_add_page
  /\ Legacy.filterPricingTiers Samples.saved_add_page
     = remote pricing_tier_unit (Str "7") Samples.saved_add_page.
Proof.
  destruct (legacy_add_pages Examples.item_add_page) as (H1 & H2 & _).
  destruct (legacy_add_pages Samples.saved_add_page) as (_ & _ & H3).
  split; [exact (H1 (or_introl eq_refl))|]. split.
  - exact (H2 eq_refl (or_introl eq_refl)).
  - exact (H3 eq_refl _ [] eq_refl ltac:(discriminate)).
Defined.

Lemma legacy_agrees_on_variant_add_page_witness :
  Legacy.filterPricingTiers Examples.add_page
  = filterPricingTiers Examples.add_page.
Proof.
  exact (legacy_agrees_on_variant_add_page Examples.add_page eq_refl eq_refl).
Defined.

Lemma legacy_agrees_on_change_page_witness :
  Legacy.productVariantId Examples.change_page = Str "42"
  /\ Legacy.filterPricingTiers Examples.change_page
     = filterPricingTiers Examples.change_page.
Proof.
  destruct (legacy_agrees_on_change_page Examples.change_page "42" EmptyString
              eq_refl eq_refl ltac:(discriminate) eq_refl) as (H1 & _ & H3).
  split; [exact H1 | exact H3].
Defined.

Lemma legacy_change_listeners_witness :
  invocations pricing_tier_unit (Change 0)
    (Legacy.ready Examples.item_add_page) = 0.
Proof.
  destruct (legacy_change_listeners Examples.item_add_page 0
              {| t_id := "id_product_variant"; t_name := "product_variant" |}
              eq_refl) as [H _].
  exact (proj1 (H eq_refl)).
Defined.


Lemma own_select_is_read_empty_witness :
  push_row pricing_tier_unit []
    (view (selects_when_read pricing_tier_unit Samples.add_page_with_select 1)
       Samples.tier_row_with_select) = []
  /\ exists s1 s0,
       selects (doc (local pricing_tier_unit Samples.add_page_with_select)) !! 1
       = Some s1
       /\ options s1 = [Examples.placeholder] /\ disabled s1 = true
       /\ selects (doc (local pricing_tier_unit
                          (local pricing_tier_unit
                             Samples.add_page_with_select))) !! 0
          = Some s0
       /\ options s0 = [Examples.placeholder] /\ disabled s0 = true.
Proof.
  split.
  - destruct (own_select_is_read_empty pricing_tier_unit
                Samples.add_page_with_select 1 Samples.tier_type_select
                Samples.tier_row_with_select "-tier_type"
                {| c_id := "id_pricing_tiers-0-tier_type";
                   c_name := "pricing_tiers-0-tier_type";
                   c_value := EmptyString; c_checked := false;
                   c_select := Some 1 |}
                (or_introl (conj eq_refl (or_introl eq_refl)))
                eq_refl eq_refl) as [_ H].
    + exists Examples.placeholder,
        [{| o_value := Some "pallet"; o_text := "Pallet" |}].
      split; reflexivity.
    + reflexivity.
    + reflexivity.
    + exact (H []).
  - eexists. eexists. split; [vm_compute; reflexivity|].
    split; [reflexivity|]. split; [reflexivity|].
    split; [vm_compute; reflexivity|]. split; reflexivity.
Defined.
